(** * Terminal portfolio: command service, history tracker and text formatter

    A shallow embedding of the TypeScript services behind the terminal
    interface: [CommandService] (validation, suggestions, single-flight
    execution, history log, the [skills] and [theme] resolvers),
    [CommandHistoryService] (bounded log with a navigation cursor),
    [SessionService.changeTheme] and [OutputFormatterService.formatText];
    then the HTTP pipeline of [CommandService], the queries of the history
    service, the text utilities of the formatter, and the two components
    that feed the command service: [CommandInputComponent] (suggestions,
    completion, history keys) and [TerminalContainerComponent.executeCommand].

    Conventions of the embedding.
    - A JavaScript string is a [string]: the sequence of the bytes of its
      UTF-8 text.  Case mapping, white space and line terminators are
      those of the ASCII range, which contains every command name, theme
      name and separator the services compare against; lengths and
      positions count bytes.  On ASCII text ([asciiText]) these are the
      primitives of JavaScript.  Outside it they are not: JavaScript also
      lower-cases letters beyond Z, trims the no-break space and other
      space separators, stops the dot of a regular expression at U+2028
      and U+2029, and counts code units.  A property that depends on
      the difference is stated for ASCII text.
    - The navigation index of the history service, which starts at -1,
      is a [Z]; array lengths are [nat].
    - The skills asset is an object whose values are arrays of strings;
      reading a property of it follows the prototype chain.
    - A [BehaviorSubject] is the field holding its current value; an
      [Observable] that is subscribed once and emits one value or fails
      is the value [Observable] below, and what its operators do on
      subscription is applied where it is built.  Delays are not
      modelled.
    - The DOM is not modelled; of the download command only whether its
      DOM calls throw is kept. *)

From Stdlib Require Import List String Ascii ZArith Lia Bool.
Import ListNotations.
Open Scope string_scope.

(** ** JavaScript string primitives *)

Module JsString.

Definition space : ascii := " "%char.
Definition newline : ascii := "010"%char.
Definition carriageReturn : ascii := "013"%char.

(** [String.prototype.toLowerCase] on one ASCII character. *)
Definition lowerChar (c : ascii) : ascii :=
  let n := nat_of_ascii c in
  if (65 <=? n)%nat && (n <=? 90)%nat then ascii_of_nat (n + 32) else c.

(** [String.prototype.toUpperCase] on one ASCII character. *)
Definition upperChar (c : ascii) : ascii :=
  let n := nat_of_ascii c in
  if (97 <=? n)%nat && (n <=? 122)%nat then ascii_of_nat (n - 32) else c.

Fixpoint toLowerCase (s : string) : string :=
  match s with
  | EmptyString => EmptyString
  | String c r => String (lowerChar c) (toLowerCase r)
  end.

Fixpoint toUpperCase (s : string) : string :=
  match s with
  | EmptyString => EmptyString
  | String c r => String (upperChar c) (toUpperCase r)
  end.

(** White space removed by [trim]: TAB, LF, VT, FF, CR and SPACE. *)
Definition isWhiteSpace (c : ascii) : bool :=
  let n := nat_of_ascii c in
  ((9 <=? n)%nat && (n <=? 13)%nat) || (n =? 32)%nat.

(** Characters the regular-expression dot does not match, in the ASCII
    range. *)
Definition isLineTerminator (c : ascii) : bool :=
  Ascii.eqb c newline || Ascii.eqb c carriageReturn.

Fixpoint trimStart (s : string) : string :=
  match s with
  | EmptyString => EmptyString
  | String c r => if isWhiteSpace c then trimStart r else s
  end.

Fixpoint trimEnd (s : string) : string :=
  match s with
  | EmptyString => EmptyString
  | String c r =>
      match trimEnd r with
      | EmptyString => if isWhiteSpace c then EmptyString else String c EmptyString
      | r' => String c r'
      end
  end.

Definition trim (s : string) : string := trimEnd (trimStart s).

(** [s.split(sep)] for a one-character separator; never the empty array. *)
Fixpoint split (sep : ascii) (s : string) : list string :=
  match s with
  | EmptyString => [EmptyString]
  | String c r =>
      if Ascii.eqb c sep then EmptyString :: split sep r
      else match split sep r with
           | t :: ts => String c t :: ts
           | [] => [String c EmptyString]
           end
  end.

(** [s.startsWith(p)]. *)
Definition startsWith (s p : string) : bool := prefix p s.

(** [s.slice(n)] for [0 <= n]. *)
Fixpoint drop (n : nat) (s : string) : string :=
  match n, s with
  | O, _ => s
  | S _, EmptyString => EmptyString
  | S m, String _ r => drop m r
  end.

(** [a.join(sep)]. *)
Definition join (sep : string) (a : list string) : string := concat sep a.

(** [a.includes(x)] on an array of strings. *)
Definition includes (a : list string) (x : string) : bool :=
  existsb (String.eqb x) a.

(** Membership of a character in a string. *)
Fixpoint occurs (c : ascii) (s : string) : Prop :=
  match s with
  | EmptyString => False
  | String d r => d = c \/ occurs c r
  end.

End JsString.

Import JsString.

(** ** JavaScript array primitives on arrays of strings *)

Module JsArray.

(** [a[i]] for a number [i]: [None] is [undefined], out of range. *)
Definition at_ (a : list string) (i : Z) : option string :=
  if (i <? 0)%Z then None else nth_error a (Z.to_nat i).

(** [a[a.length - 1]]: [undefined] for the empty array. *)
Definition lastElement (a : list string) : option string :=
  at_ a (Z.of_nat (List.length a) - 1).

(** [x !== command] for [x] a string or [undefined]. *)
Definition differs (x : option string) (command : string) : bool :=
  match x with
  | None => true
  | Some v => negb (v =? command)
  end.

(** [a.shift()]: the array without its first element. *)
Definition shift (a : list string) : list string := tl a.

End JsArray.

Import JsArray.

(** ** Command models (command.models.ts) *)

Inductive CommandExecutionState : Type :=
| IDLE
| PROCESSING
| SUCCESS
| ERROR.

Definition AVAILABLE_COMMANDS : list string :=
  [ "help"; "summary"; "aboutme"; "skills"; "experience"; "education";
    "highlights"; "tryme"; "download"; "clear"; "theme" ].

(** ** Observables that deliver one notification *)

(** What an error callback receives: a JavaScript [Error] with its message,
    or the [CommandError] object built by [createCommandError]. *)
Inductive Failure : Type :=
| JsError (message : string)
| CommandError (code message suggestion : string) (availableCommands : list string).

Inductive Observable (A : Type) : Type :=
| Emits (a : A)
| Throws (e : Failure).
Arguments Emits {A} a.
Arguments Throws {A} e.

Module Rx.

Definition of_ {A} (a : A) : Observable A := Emits a.

Definition throwError {A} (e : Failure) : Observable A := Throws e.

Definition map {A B} (f : A -> B) (o : Observable A) : Observable B :=
  match o with
  | Emits a => Emits (f a)
  | Throws e => Throws e
  end.

Definition catchError {A} (h : Failure -> Observable A) (o : Observable A)
  : Observable A :=
  match o with
  | Emits a => Emits a
  | Throws e => h e
  end.

End Rx.

(** ** Output models (command.models.ts) *)

Inductive OutputType : Type := text | list_ | table | json | interactive.

Record Animation : Type := { typewriter : bool; speed : Z }.

Record OutputFormatting : Type :=
  { color : string; animation : option Animation }.

Record OutputAction : Type :=
  { action_id : string; action_label : string; action_type : string }.

(** The [content] of a response is untyped in the source.  The values the
    resolvers below produce are a string, an array of strings, or a member
    of [Object.prototype] reached through the prototype chain. *)
Inductive Payload : Type :=
| PText (s : string)
| PList (items : list string)
| PInherited (member : string).

Record OutputContent : Type :=
  { content : Payload;
    type : OutputType;
    formatting : option OutputFormatting;
    actions : list OutputAction }.

(** [formatting: { color: c }]. *)
Definition plain (c : string) : option OutputFormatting :=
  Some {| color := c; animation := None |}.

(** [CommandOutput]: the random [executionTime] and the clock-derived
    [metadata] are left out. *)
Record CommandOutput : Type :=
  { success : bool; output : OutputContent; nextSuggestions : list string }.

(** ** Session models (session.models.ts) and SessionService.changeTheme *)

Inductive ThemeType : Type := dark | light | matrix | retro.

Definition themeString (t : ThemeType) : string :=
  match t with
  | dark => "dark" | light => "light" | matrix => "matrix" | retro => "retro"
  end.

Definition ThemeType_eqb (a b : ThemeType) : bool :=
  String.eqb (themeString a) (themeString b).

(** Colours and fonts of a theme are not read by the command service. *)
Record ThemeConfig : Type := { name : ThemeType; displayName : string }.

Definition AVAILABLE_THEMES : list (ThemeType * ThemeConfig) :=
  [ (dark,   {| name := dark;   displayName := "Dark Terminal" |});
    (light,  {| name := light;  displayName := "Light Terminal" |});
    (matrix, {| name := matrix; displayName := "Matrix Green" |});
    (retro,  {| name := retro;  displayName := "Retro Amber" |}) ].

(** What the command service uses of its session collaborator, over the
    collaborator's own state [S]. *)
Record SessionApi (S : Type) : Type :=
  { availableThemes : S -> list ThemeConfig;
    changeTheme : ThemeType -> S -> Observable ThemeType * S }.
Arguments availableThemes {S} _ _.
Arguments changeTheme {S} _ _ _.

Module SessionService.

(** [themeSubject], the theme stored in [preferencesSubject], and the
    theme applied to the document. *)
Record State : Type :=
  { themeSubject : ThemeType;
    preferencesTheme : ThemeType;
    documentTheme : ThemeType }.

Definition initial : State :=
  {| themeSubject := dark; preferencesTheme := dark; documentTheme := dark |}.

Definition currentTheme (s : State) : ThemeType := themeSubject s.

(** [Object.values(AVAILABLE_THEMES)]. *)
Definition availableThemes (_ : State) : list ThemeConfig :=
  List.map snd AVAILABLE_THEMES.

(** [AVAILABLE_THEMES[theme]]. *)
Definition themeConfig (theme : ThemeType) : option ThemeConfig :=
  option_map snd (find (fun p => ThemeType_eqb (fst p) theme) AVAILABLE_THEMES).

(** [updatePreferences] ends in [updatePreferencesLocally], directly when
    there is no session id and through [catchError] when the PATCH
    request fails: there is no backend. *)
Definition updatePreferences (theme : ThemeType) (s : State) : State :=
  {| themeSubject := themeSubject s;
     preferencesTheme := theme;
     documentTheme := documentTheme s |}.

Definition applyThemeToDocument (theme : ThemeType) (s : State) : State :=
  {| themeSubject := themeSubject s;
     preferencesTheme := preferencesTheme s;
     documentTheme := theme |}.

(** The returned observable is subscribed once, by the pipeline of the
    theme command: the [tap] that applies the theme to the document runs
    then, and is applied here. *)
Definition changeTheme (theme : ThemeType) (s : State)
  : Observable ThemeType * State :=
  match themeConfig theme with
  | None => (Rx.throwError (JsError ("Invalid theme: " ++ themeString theme)), s)
  | Some _ =>
      let s1 := {| themeSubject := theme;
                   preferencesTheme := preferencesTheme s;
                   documentTheme := documentTheme s |} in
      let s2 := updatePreferences theme s1 in
      (Rx.of_ theme, applyThemeToDocument theme s2)
  end.

Definition api : SessionApi State :=
  Build_SessionApi State availableThemes changeTheme.

End SessionService.

(** ** CommandService (command.service.ts) *)

Module CommandService.

Definition nl : string := String newline EmptyString.

(** *** Validation and suggestions *)

(** [command.split(' ')[0]]: the array is never empty. *)
Definition firstToken (command : string) : string :=
  match split space command with
  | t :: _ => t
  | [] => EmptyString
  end.

Definition isValidCommand (command : string) : bool :=
  let baseCommand := toLowerCase (firstToken command) in
  includes AVAILABLE_COMMANDS baseCommand.

(** [partial] is [None] when the argument is absent ([undefined]);
    [!partial] holds for an absent and for an empty string. *)
Definition getCommandSuggestions (partial : option string) : list string :=
  match partial with
  | None | Some EmptyString => AVAILABLE_COMMANDS
  | Some p =>
      let lowerPartial := toLowerCase p in
      filter (fun cmd => startsWith (toLowerCase cmd) lowerPartial)
             AVAILABLE_COMMANDS
  end.

(** *** Errors *)

Definition getErrorSuggestion (errorCode : string) : string :=
  if errorCode =? "INVALID_COMMAND" then "Type 'help' to see available commands"
  else if errorCode =? "COMMAND_NOT_FOUND" then
    "Check spelling or type 'help' for available commands"
  else if errorCode =? "RATE_LIMIT" then
    "Please wait a few seconds before trying again"
  else if errorCode =? "TIMEOUT" then
    "Check your internet connection and try again"
  else "Type 'help' for assistance".

(** [x || d] for an optional string [x]: the empty string is falsy. *)
Definition orElse (x : option string) (d : string) : string :=
  match x with
  | None | Some EmptyString => d
  | Some v => v
  end.

Definition createCommandError (code message : string) (suggestion : option string)
  : Failure :=
  CommandError code message (orElse suggestion (getErrorSuggestion code))
               AVAILABLE_COMMANDS.

(** [error.message]: a [CommandError] object has no such field. *)
Definition errorMessage (error : Failure) : option string :=
  match error with
  | JsError m => Some m
  | CommandError _ _ _ _ => None
  end.

(** *** State: the three subjects and what they have emitted *)

Inductive Emission : Type :=
| ExecutionStateNext (state : CommandExecutionState)
| CurrentCommandNext (command : option string)
| CommandHistoryNext (history : list string).

Record State : Type :=
  { executionState : CommandExecutionState;
    currentCommand : option string;
    commandHistory : list string;
    emitted : list Emission }.

Definition initial : State :=
  {| executionState := IDLE; currentCommand := None;
     commandHistory := []; emitted := [] |}.

Definition isProcessing (w : State) : bool :=
  match executionState w with
  | PROCESSING => true
  | _ => false
  end.

Definition setExecutionState (state : CommandExecutionState) (w : State) : State :=
  {| executionState := state;
     currentCommand := currentCommand w;
     commandHistory := commandHistory w;
     emitted := emitted w ++ [ExecutionStateNext state] |}.

Definition currentCommandNext (command : option string) (w : State) : State :=
  {| executionState := executionState w;
     currentCommand := command;
     commandHistory := commandHistory w;
     emitted := emitted w ++ [CurrentCommandNext command] |}.

Definition commandHistoryNext (history : list string) (w : State) : State :=
  {| executionState := executionState w;
     currentCommand := currentCommand w;
     commandHistory := history;
     emitted := emitted w ++ [CommandHistoryNext history] |}.

Definition clearHistory (w : State) : State := commandHistoryNext [] w.

Definition getHistory (w : State) : list string := commandHistory w.

Definition addToHistory (command : string) (w : State) : State :=
  let currentHistory := commandHistory w in
  let lastCommand := lastElement currentHistory in
  if differs lastCommand command then
    let newHistory := (currentHistory ++ [command])%list in
    let newHistory :=
      if (50 <? List.length newHistory)%nat then shift newHistory else newHistory in
    commandHistoryNext newHistory w
  else w.

(** *** Skills data: the object parsed from /assets/skills.json *)

(** The own enumerable properties in enumeration order; every value is
    an array of skill names. *)
Definition SkillsData : Type := list (string * list string).

(** The members every object inherits from [Object.prototype]. *)
Definition objectPrototypeMembers : list string :=
  [ "constructor"; "__defineGetter__"; "__defineSetter__"; "hasOwnProperty";
    "__lookupGetter__"; "__lookupSetter__"; "isPrototypeOf";
    "propertyIsEnumerable"; "toString"; "valueOf"; "__proto__";
    "toLocaleString" ].

Inductive Property : Type :=
| Own (skills : list string)
| Inherited (member : string)
| Undefined.

Definition ownProperty (data : SkillsData) (key : string) : option (list string) :=
  option_map snd (find (fun p => fst p =? key) data).

(** [data[key]]: an own property, else one found on the prototype. *)
Definition getProperty (data : SkillsData) (key : string) : Property :=
  match ownProperty data key with
  | Some skills => Own skills
  | None => if includes objectPrototypeMembers key then Inherited key else Undefined
  end.

Definition allSkills (data : SkillsData) : string :=
  join (nl ++ nl)
    (List.map
       (fun entry : string * list string =>
          let (cat, skills) := entry in
          toUpperCase cat ++ ":" ++ nl
          ++ join nl (List.map (fun skill => "‚Ä¢ " ++ skill) skills))
       data).

Definition allSkillsResponse (data : SkillsData) : OutputContent :=
  {| content := PText ("Technical Skills:" ++ nl ++ nl ++ allSkills data ++ nl ++ nl
                       ++ "Use 'skills [category]' to view specific categories.");
     type := text;
     formatting := plain "blue";
     actions := [] |}.

(** The callback mapped over the skills asset; [category] is [args[0]],
    [None] when [args] is empty.  Arrays, functions and objects are
    truthy, the empty string and [undefined] are not. *)
Definition skillsResponse (category : option string) (data : SkillsData) : OutputContent :=
  match category with
  | None | Some EmptyString => allSkillsResponse data
  | Some cat =>
      match getProperty data cat with
      | Own skills =>
          {| content := PList skills; type := list_;
             formatting := plain "blue"; actions := [] |}
      | Inherited member =>
          {| content := PInherited member; type := list_;
             formatting := plain "blue"; actions := [] |}
      | Undefined => allSkillsResponse data
      end
  end.

Definition getNextSuggestions (command : string) : list string :=
  if command =? "help" then ["summary"; "aboutme"; "skills"; "experience"]
  else if command =? "summary" then ["aboutme"; "skills"; "experience"; "tryme"]
  else if command =? "aboutme" then ["summary"; "skills"; "experience"; "tryme"]
  else if command =? "skills" then ["experience"; "education"; "highlights"; "tryme"]
  else if command =? "experience" then ["education"; "skills"; "highlights"; "tryme"]
  else if command =? "education" then ["skills"; "experience"; "highlights"; "tryme"]
  else if command =? "highlights" then ["summary"; "aboutme"; "tryme"; "download"]
  else if command =? "tryme" then ["download"; "summary"; "skills"; "experience"]
  else if command =? "download" then ["summary"; "aboutme"; "skills"; "theme"]
  else if command =? "theme" then ["help"; "summary"; "aboutme"; "skills"]
  else ["help"; "summary"; "aboutme"; "skills"].

(** *** The resolver and the execution pipeline *)

(** What [executeCommand] returns: an observable that only fails, or the
    offline pipeline of the normalized command, already built, with the
    [finalize] callback attached. *)
Inductive Submission : Type :=
| Rejected (e : Failure)
| InFlight (trimmedCommand : string) (pipeline : Observable CommandOutput).

(** [themeName !== 'dark' && themeName !== 'light'] fails exactly on the
    two names below; the name is then passed on as a [ThemeType]. *)
Definition themeOfName (themeName : string) : option ThemeType :=
  if themeName =? "dark" then Some dark
  else if themeName =? "light" then Some light
  else None.

(** *** The help text *)

(** [CommandDefinition], as far as [generateHelpContent] reads it: the
    optional [args] and [examples] are left out. *)
Record CommandDefinition : Type :=
  { definitionName : string;
    description : string;
    usage : string;
    category : string }.

Definition getFallbackCommands : list CommandDefinition :=
  [ {| definitionName := "help";
       description := "Shows available commands and descriptions";
       usage := "help"; category := "navigation" |};
    {| definitionName := "summary";
       description := "Overview of Joseph Lee's profile and career";
       usage := "summary"; category := "profile" |};
    {| definitionName := "aboutme";
       description := "Personal story and background information";
       usage := "aboutme"; category := "profile" |};
    {| definitionName := "skills";
       description := "Technical skills and competencies";
       usage := "skills [category]"; category := "technical" |};
    {| definitionName := "experience";
       description := "Work experience and employment history";
       usage := "experience"; category := "profile" |};
    {| definitionName := "education";
       description := "Educational background and qualifications";
       usage := "education"; category := "profile" |};
    {| definitionName := "highlights";
       description := "Key achievements and notable projects";
       usage := "highlights"; category := "profile" |};
    {| definitionName := "tryme";
       description := "Why you should work with Joseph";
       usage := "tryme"; category := "action" |};
    {| definitionName := "download";
       description := "Download resume as PDF";
       usage := "download"; category := "action" |};
    {| definitionName := "clear";
       description := "Clear the terminal screen";
       usage := "clear"; category := "navigation" |};
    {| definitionName := "theme";
       description := "Change terminal theme or show available themes";
       usage := "theme [name]"; category := "action" |} ].

(** [[...new Set(a)]]: the elements of [a] in the order of their first
    occurrence. *)
Definition unique (a : list string) : list string :=
  fold_left (fun seen x => if includes seen x then seen else (seen ++ [x])%list) a [].

(** [s.padEnd(n)]. *)
Definition padEnd (n : nat) (s : string) : string :=
  s ++ string_of_list_ascii (repeat space (n - String.length s)).

(** [s.charAt(0).toUpperCase() + s.slice(1)]. *)
Definition capitalize (s : string) : string :=
  match s with
  | EmptyString => EmptyString
  | String c r => String (upperChar c) r
  end.

Definition generateHelpContent : string :=
  let commands := getFallbackCommands in
  let categories := unique (List.map category commands) in
  let helpText :=
    "Joseph Lee's Interactive Portfolio Terminal" ++ nl ++ nl
    ++ "Available Commands:" ++ nl ++ nl in
  let helpText :=
    fold_left
      (fun helpText cat =>
         let categoryCommands :=
           filter (fun cmd => category cmd =? cat) commands in
         let categoryTitle := capitalize cat in
         let helpText := helpText ++ categoryTitle ++ ":" ++ nl in
         let helpText :=
           fold_left
             (fun helpText cmd =>
                helpText ++ "  " ++ padEnd 20 (usage cmd) ++ " "
                ++ description cmd ++ nl)
             categoryCommands helpText in
         helpText ++ nl)
      categories helpText in
  helpText
  ++ "Type any command to explore my background and experience." ++ nl
  ++ "Use 'clear' to clear the terminal or 'theme [name]' to change themes.".

Section Pipeline.

Context {S : Type}.

(** The session collaborator. *)
Variable sessionService : SessionApi S.

(** What [http.get('/assets/skills.json')] delivers. *)
Variable skillsJson : Observable SkillsData.

(** The branches [summary], [aboutme], [experience], [education],
    [highlights] and [tryme] of the resolver: what the request of the
    asset delivers, mapped to a content.  They touch no state modelled
    here. *)
Variable assetBranch : string -> Observable OutputContent.

(** Whether a DOM call in the [try] block of [executeDownloadCommand]
    throws. *)
Variable documentThrows : bool.

Definition executeThemeCommand (args : list string) (s : S)
  : Observable OutputContent * S :=
  match args with
  | [] =>
      let themes := availableThemes sessionService s in
      let themeList :=
        join nl (List.map
                   (fun t => "‚Ä¢ " ++ themeString (name t) ++ " - " ++ displayName t)
                   themes) in
      (Rx.of_ {| content := PText ("Available themes:" ++ nl ++ nl ++ themeList
                                   ++ nl ++ nl ++ "Usage: theme <name>");
                 type := text;
                 formatting := plain "blue";
                 actions := [] |}, s)
  | arg :: _ =>
      let themeName := toLowerCase arg in
      match themeOfName themeName with
      | None =>
          (Rx.of_ {| content := PText ("‚ùå Invalid theme: '" ++ themeName ++ "'"
                                       ++ nl ++ nl ++ "Available themes: dark, light"
                                       ++ nl ++ nl ++ "Usage: theme <name>");
                     type := text;
                     formatting := plain "red";
                     actions := [] |}, s)
      | Some theme =>
          let (changed, s') := changeTheme sessionService theme s in
          (Rx.catchError
             (fun error =>
                Rx.of_ {| content :=
                            PText ("‚ùå Failed to change theme: "
                                   ++ orElse (errorMessage error) "Unknown error"
                                   ++ nl ++ nl ++ "Available themes: dark, light");
                          type := text;
                          formatting := plain "red";
                          actions := [] |})
             (Rx.map
                (fun theme =>
                   {| content :=
                        PText ("‚úÖ Theme changed to: " ++ themeString theme
                               ++ nl ++ nl ++ "The " ++ themeString theme
                               ++ " theme has been applied to the terminal.");
                      type := text;
                      formatting :=
                        Some {| color := "green";
                                animation := Some {| typewriter := true; speed := 30 |} |};
                      actions := [] |})
                changed),
           s')
      end
  end.

(** The link is created and clicked in the DOM, which is not modelled;
    the observable emits in both cases. *)
Definition executeDownloadCommand : Observable OutputContent :=
  if documentThrows then
    Rx.of_ {| content :=
                PText ("‚ùå Download failed. Please try again or contact support."
                       ++ nl ++ nl ++ "Error: Unable to generate resume file.");
              type := text;
              formatting := plain "red";
              actions := [] |}
  else
    Rx.of_ {| content :=
                PText ("üìÑ Resume downloaded successfully!" ++ nl ++ nl
                       ++ "File: Joseph_Lee_Resume_B.pdf" ++ nl
                       ++ "Location: Downloads folder" ++ nl ++ nl
                       ++ "The resume contains my complete professional background, skills, and experience.");
              type := interactive;
              formatting :=
                Some {| color := "green";
                        animation := Some {| typewriter := true; speed := 30 |} |};
              actions := [ {| action_id := "download-resume";
                              action_label := "Download Resume";
                              action_type := "download" |} ] |}.

Definition generateResponseFromAssets (command : string) (args : list string) (s : S)
  : Observable OutputContent * S :=
  if command =? "help" then
    (Rx.of_ {| content := PText generateHelpContent;
               type := text;
               formatting := plain "cyan";
               actions := [] |}, s)
  else if (command =? "summary") || (command =? "aboutme") then
    (assetBranch command, s)
  else if command =? "skills" then
    let category := nth_error args 0 in
    (Rx.map (skillsResponse category) skillsJson, s)
  else if (command =? "experience") || (command =? "education")
          || (command =? "highlights") || (command =? "tryme") then
    (assetBranch command, s)
  else if command =? "download" then (executeDownloadCommand, s)
  else if command =? "theme" then executeThemeCommand args s
  else
    (Rx.of_ {| content :=
                 PText ("Command '" ++ command
                        ++ "' is recognized but not yet implemented." ++ nl ++ nl
                        ++ "Available commands: help, summary, aboutme, skills, experience, education, highlights, tryme, download, theme");
               type := text;
               formatting := plain "orange";
               actions := [] |}, s).

(** [const [cmd, ...args] = command.split(' ')]. *)
Definition executeOfflineCommand (command : string) (s : S)
  : Observable CommandOutput * S :=
  let cmd := firstToken command in
  let args := tl (split space command) in
  let (response, s') := generateResponseFromAssets cmd args s in
  (Rx.catchError
     (fun error =>
        Rx.throwError
          (createCommandError "EXECUTION_ERROR"
             (orElse (errorMessage error) "Command execution failed") None))
     (Rx.map
        (fun output =>
           {| success := true; output := output;
              nextSuggestions := getNextSuggestions cmd |})
        response),
   s').

Definition executeCommand (command sessionId : string) (w : State) (s : S)
  : Submission * State * S :=
  if isProcessing w then
    (Rejected (JsError "Another command is currently processing"), w, s)
  else
    let trimmedCommand := toLowerCase (trim command) in
    if negb (isValidCommand trimmedCommand) then
      (Rejected (createCommandError "INVALID_COMMAND"
                   ("Command '" ++ command ++ "' not recognized") None), w, s)
    else
      let w1 := setExecutionState PROCESSING w in
      let w2 := currentCommandNext (Some trimmedCommand) w1 in
      let (pipeline, s') := executeOfflineCommand trimmedCommand s in
      (InFlight trimmedCommand pipeline, w2, s').

End Pipeline.

(** The [finalize] callback of an accepted submission. *)
Definition finalize (trimmedCommand : string) (w : State) : State :=
  let w1 := setExecutionState IDLE w in
  let w2 := currentCommandNext None w1 in
  addToHistory trimmedCommand w2.

(** The subscriber of a submission receives its notification; the
    pipeline of an accepted one then runs [finalize]. *)
Definition complete (submission : Submission) (w : State)
  : Observable CommandOutput * State :=
  match submission with
  | Rejected e => (Rx.throwError e, w)
  | InFlight trimmedCommand pipeline => (pipeline, finalize trimmedCommand w)
  end.

End CommandService.

(** ** CommandHistoryService (command-history.service.ts) *)

Module CommandHistoryService.

Definition maxHistorySize : nat := 50.

Record State : Type :=
  { history : list string;
    currentIndex : Z;
    tempCommand : string }.

Definition initial : State :=
  {| history := []; currentIndex := (-1)%Z; tempCommand := EmptyString |}.

Definition size (st : State) : nat := List.length (history st).

(** What a navigation call returns: a string, [null], or [undefined]
    when an index outside the array is read. *)
Inductive Navigated : Type :=
| Entry (command : string)
| Null
| Undefined.

Definition read (a : list string) (i : Z) : Navigated :=
  match at_ a i with
  | Some command => Entry command
  | None => Undefined
  end.

Definition resetNavigation (st : State) : State :=
  {| history := history st;
     currentIndex := Z.of_nat (List.length (history st));
     tempCommand := EmptyString |}.

Definition addCommand (command : string) (st : State) : State :=
  if trim command =? EmptyString then st
  else
    let currentHistory := history st in
    let lastCommand := lastElement currentHistory in
    let st1 :=
      if differs lastCommand (trim command) then
        let newHistory := (currentHistory ++ [trim command])%list in
        let newHistory :=
          if (maxHistorySize <? List.length newHistory)%nat
          then shift newHistory else newHistory in
        {| history := newHistory;
           currentIndex := currentIndex st;
           tempCommand := tempCommand st |}
      else st in
    resetNavigation st1.

Definition getPreviousCommand (st : State) : Navigated * State :=
  let history := history st in
  if (List.length history =? 0)%nat then (Null, st)
  else if (currentIndex st >? 0)%Z then
    let i := (currentIndex st - 1)%Z in
    (read history i,
     {| history := history; currentIndex := i; tempCommand := tempCommand st |})
  else (Null, st).

Definition getNextCommand (st : State) : Navigated * State :=
  let history := history st in
  let length := Z.of_nat (List.length history) in
  if (length =? 0)%Z then (Null, st)
  else if (currentIndex st <? length - 1)%Z then
    let i := (currentIndex st + 1)%Z in
    (read history i,
     {| history := history; currentIndex := i; tempCommand := tempCommand st |})
  else if (currentIndex st =? length - 1)%Z then
    (Entry (tempCommand st),
     {| history := history; currentIndex := length; tempCommand := tempCommand st |})
  else (Null, st).

Definition setTempCommand (command : string) (st : State) : State :=
  {| history := history st;
     currentIndex := currentIndex st;
     tempCommand := command |}.

Definition clearHistory (st : State) : State :=
  resetNavigation
    {| history := []; currentIndex := currentIndex st; tempCommand := tempCommand st |}.

(** [n] successive calls of a navigation function: the values returned,
    in call order, and the final state. *)
Fixpoint repeatedly (step : State -> Navigated * State) (n : nat) (st : State)
  : list Navigated * State :=
  match n with
  | O => ([], st)
  | S m =>
      let (r, st1) := step st in
      let (rs, st2) := repeatedly step m st1 in
      (r :: rs, st2)
  end.

End CommandHistoryService.

(** ** OutputFormatterService (output-formatter.service.ts) *)

Module OutputFormatterService.

(** The lazy group [(.*?)] followed by the literal [close]: the shortest
    run of characters other than line terminators after which [close]
    occurs.  Returns the run and what follows [close]. *)
Fixpoint lazyUntil (close : string) (s : string) : option (string * string) :=
  if prefix close s then Some (EmptyString, drop (String.length close) s)
  else
    match s with
    | EmptyString => None
    | String c r =>
        if isLineTerminator c then None
        else
          match lazyUntil close r with
          | Some (inner, rest) => Some (String c inner, rest)
          | None => None
          end
    end.

(** A match of [/D(.*?)D/] that starts at the first character of [s],
    for the literal delimiter [D]: the captured group. *)
Definition matchAt (d : string) (s : string) : option string :=
  if prefix d s then option_map fst (lazyUntil d (drop (String.length d) s))
  else None.

(** [s.replace(/D(.*?)D/g, op + '$1' + cl)]: the string is scanned from
    left to right; a match is replaced and the scan resumes after it.
    [skip] counts the characters of [s] that belong to the match just
    replaced. *)
Fixpoint replaceScan (skip : nat) (d op cl : string) (s : string) : string :=
  match s with
  | EmptyString => EmptyString
  | String c r =>
      match skip with
      | S k => replaceScan k d op cl r
      | O =>
          match matchAt d s with
          | Some inner =>
              op ++ inner ++ cl
              ++ replaceScan (String.length d + String.length inner + String.length d - 1)
                             d op cl r
          | None => String c (replaceScan 0 d op cl r)
          end
      end
  end.

Definition replaceDelimited (d op cl : string) (s : string) : string :=
  replaceScan 0 d op cl s.

(** [s.replace(/\n/g, '<br>')]. *)
Fixpoint replaceNewlines (s : string) : string :=
  match s with
  | EmptyString => EmptyString
  | String c r =>
      if Ascii.eqb c newline then "<br>" ++ replaceNewlines r
      else String c (replaceNewlines r)
  end.

Definition processTextContent (content : string) : string :=
  let bold := replaceDelimited "**" "<strong>" "</strong>" content in
  let italic := replaceDelimited "*" "<em>" "</em>" bold in
  let code := replaceDelimited "`" "<code>" "</code>" italic in
  replaceNewlines code.

Definition formatText (content : string) (formatting : option OutputFormatting)
  : OutputContent :=
  {| content := PText (processTextContent content);
     type := text;
     formatting := formatting;
     actions := [] |}.

(** The text a [text] content displays. *)
Definition displayText (c : OutputContent) : option string :=
  match content c with
  | PText s => Some s
  | _ => None
  end.

End OutputFormatterService.

(** ** Specification-side notions *)

(** [s] holds the delimiter [d] twice, the second occurrence after the
    first, with no line terminator in between: what [/d(.*?)d/] matches. *)
Definition hasMarker (d s : string) : Prop :=
  exists pre inner post,
    s = pre ++ d ++ inner ++ d ++ post /\
    forall c, occurs c inner -> isLineTerminator c = false.

(** No bold, italic or inline-code marker and no newline. *)
Definition markerFree (s : string) : Prop :=
  ~ hasMarker "**" s /\ ~ hasMarker "*" s /\ ~ hasMarker "`" s /\
  ~ occurs newline s.

(** Every character of [s] satisfies [p]. *)
Fixpoint allChars (p : ascii -> bool) (s : string) : bool :=
  match s with
  | EmptyString => true
  | String c r => p c && allChars p r
  end.

(** [c] is an ASCII character. *)
Definition isAscii (c : ascii) : bool := (nat_of_ascii c <? 128)%nat.

(** [s] is ASCII text.  On such text the primitives of [JsString] are
    those of JavaScript: [trim] removes nothing but the six ASCII white
    space characters, [toLowerCase] changes nothing but the letters A to
    Z, the dot of a regular expression refuses nothing but LF and CR, and
    a length counts code units. *)
Definition asciiText (s : string) : Prop := allChars isAscii s = true.

(** The characters of [s] before its first white-space character. *)
Fixpoint untilWhiteSpace (s : string) : string :=
  match s with
  | EmptyString => EmptyString
  | String c r => if isWhiteSpace c then EmptyString else String c (untilWhiteSpace r)
  end.

(** The first white-space-delimited word of [s], leading white space
    skipped. *)
Definition firstWord (s : string) : string := untilWhiteSpace (trimStart s).

(** [name] is a registered command name, compared without regard to case. *)
Definition registered (name : string) : Prop :=
  In (toLowerCase name) AVAILABLE_COMMANDS.

(** [p] is a prefix of [s] when case is ignored. *)
Definition prefixIgnoringCase (p s : string) : Prop :=
  exists rest, toLowerCase s = toLowerCase p ++ rest.

(** [l] is [m] with some elements left out, the order kept. *)
Inductive Subsequence {A : Type} : list A -> list A -> Prop :=
| Subsequence_nil : Subsequence [] []
| Subsequence_skip x l m : Subsequence l m -> Subsequence l (x :: m)
| Subsequence_keep x l m : Subsequence l m -> Subsequence (x :: l) (x :: m).

(** No two neighbours of the list are equal. *)
Fixpoint noConsecutiveDuplicates (l : list string) : Prop :=
  match l with
  | [] => True
  | x :: r =>
      match r with
      | [] => True
      | y :: _ => x <> y /\ noConsecutiveDuplicates r
      end
  end.

(** The history append as the specification words it: nothing happens when
    the command equals the most recent entry; otherwise it is pushed, and
    the oldest entry is dropped once the size exceeds [cap]. *)
Definition appendBounded (cap : nat) (command : string) (log : list string)
  : list string :=
  let pushed := (log ++ [command])%list in
  let bounded := if (cap <? List.length pushed)%nat then tl pushed else pushed in
  match rev log with
  | [] => bounded
  | newest :: _ => if newest =? command then log else bounded
  end.

(** [c] is not the space character. *)
Definition notSpace (c : ascii) : bool := negb (Ascii.eqb c space).

(** [c] is no white space. *)
Definition notWhiteSpace (c : ascii) : bool := negb (isWhiteSpace c).

(** The number of occurrences of [c] in [s]. *)
Fixpoint countChar (c : ascii) (s : string) : nat :=
  match s with
  | EmptyString => 0
  | String d r => (if Ascii.eqb d c then 1 else 0) + countChar c r
  end.

(** The error of a submission made while another command is processing. *)
Definition concurrentError : Failure :=
  JsError "Another command is currently processing".

(** The log of the command service after a sequence of appends. *)
Definition serviceLog (commands : list string) (w : CommandService.State)
  : list string :=
  CommandService.commandHistory
    (fold_left (fun w c => CommandService.addToHistory c w) commands w).

(** The log of the history service after a sequence of appends. *)
Definition trackerLog (commands : list string) (st : CommandHistoryService.State)
  : list string :=
  CommandHistoryService.history
    (fold_left (fun st c => CommandHistoryService.addCommand c st) commands st).

(** The state of the history service with the cursor at position [c] of
    [log] and [temp] as saved input. *)
Definition cursorAt (log : list string) (temp : string) (c : nat)
  : CommandHistoryService.State :=
  {| CommandHistoryService.history := log;
     CommandHistoryService.currentIndex := Z.of_nat c;
     CommandHistoryService.tempCommand := temp |}.

(** A skills asset with the three categories the command advertises. *)
Definition sampleSkills : CommandService.SkillsData :=
  [ ("frontend", ["Angular"; "TypeScript"]);
    ("backend", ["Node.js"]);
    ("tools", ["Git"]) ].

(** The list content the skills resolver builds from a category. *)
Definition listOf (skills : list string) : OutputContent :=
  {| content := PList skills; type := list_;
     formatting := plain "blue"; actions := [] |}.

(** The content the theme resolver builds for a rejected name. *)
Definition invalidTheme (themeName : string) : OutputContent :=
  {| content := PText ("‚ùå Invalid theme: '" ++ themeName ++ "'"
                       ++ CommandService.nl ++ CommandService.nl
                       ++ "Available themes: dark, light"
                       ++ CommandService.nl ++ CommandService.nl
                       ++ "Usage: theme <name>");
     type := text;
     formatting := plain "red";
     actions := [] |}.

(** The content the theme resolver builds without argument. *)
Definition themeListing (themes : list ThemeConfig) : OutputContent :=
  {| content :=
       PText ("Available themes:" ++ CommandService.nl ++ CommandService.nl
              ++ join CommandService.nl
                   (List.map (fun t => "‚Ä¢ " ++ themeString (name t) ++ " - "
                                        ++ displayName t) themes)
              ++ CommandService.nl ++ CommandService.nl ++ "Usage: theme <name>");
     type := text;
     formatting := plain "blue";
     actions := [] |}.

(** A collaborator that only counts the calls of [changeTheme]. *)
Definition countingSession : SessionApi nat :=
  Build_SessionApi nat (fun _ => []) (fun theme calls => (Emits theme, Datatypes.S calls)).

(** A collaborator-free environment for the examples: every static
    asset other than the skills fails to load. *)
Definition noAssets (_ : string) : Observable OutputContent :=
  Throws (JsError "asset").

(** The command service while [help] is in flight. *)
Definition busy : CommandService.State :=
  CommandService.currentCommandNext (Some "help")
    (CommandService.setExecutionState PROCESSING CommandService.initial).

(** What the subscriber of [help] receives. *)
Definition helpOutput : Observable CommandOutput :=
  Emits {| success := true;
           output := {| content := PText CommandService.generateHelpContent;
                        type := text;
                        formatting := plain "cyan";
                        actions := [] |};
           nextSuggestions := ["summary"; "aboutme"; "skills"; "experience"] |}.

(** The command service while [summary] is in flight. *)
Definition summaryInFlight : CommandService.State :=
  CommandService.currentCommandNext (Some "summary")
    (CommandService.setExecutionState PROCESSING CommandService.initial).

(** What the subscriber of [summary] receives when its asset fails to
    load. *)
Definition failedSummary : Observable CommandOutput :=
  Throws (CommandError "EXECUTION_ERROR" "asset" "Type 'help' for assistance"
            AVAILABLE_COMMANDS).

(** ** Further JavaScript primitives *)

Module JsMore.

(** [s.includes(sub)] on strings. *)
Fixpoint stringIncludes (s sub : string) : bool :=
  prefix sub s
  || match s with
     | EmptyString => false
     | String _ r => stringIncludes r sub
     end.

(** [s.substring(0, k)] for an integer [k]: a negative [k] counts as 0. *)
Definition substringTo (s : string) (k : Z) : string :=
  substring 0 (Z.to_nat (Z.max k 0)) s.

(** [a.slice(start)] for an integer [start]: a negative [start] counts
    from the end, and both ends are clamped to the array. *)
Definition sliceFrom (a : list string) (start : Z) : list string :=
  let n := Z.of_nat (List.length a) in
  let k := if (start <? 0)%Z then Z.max (n + start) 0 else Z.min start n in
  skipn (Z.to_nat k) a.

(** [s.replace(/c/g, by)] for a single literal character [c]. *)
Fixpoint replaceChar (c : ascii) (by_ : string) (s : string) : string :=
  match s with
  | EmptyString => EmptyString
  | String d r =>
      if Ascii.eqb d c then by_ ++ replaceChar c by_ r
      else String d (replaceChar c by_ r)
  end.

Definition lessThan : ascii := "<"%char.
Definition greaterThan : ascii := ">"%char.
Definition doubleQuote : ascii := "034"%char.
Definition singleQuote : ascii := "'"%char.

End JsMore.

Import JsMore.

(** ** OutputFormatterService, continued: text utilities *)

Module OutputFormatterUtilities.

(** [truncateContent(content, maxLength = 1000)]; [None] is the omitted
    argument. *)
Definition truncateContent (content : string) (maxLength : option Z) : string :=
  let maxLength := match maxLength with Some m => m | None => 1000%Z end in
  if (Z.of_nat (String.length content) <=? maxLength)%Z then content
  else substringTo content (maxLength - 3) ++ "...".

Definition sanitizeHtml (content : string) : string :=
  let s1 := replaceChar lessThan "&lt;" content in
  let s2 := replaceChar greaterThan "&gt;" s1 in
  let s3 := replaceChar doubleQuote "&quot;" s2 in
  replaceChar singleQuote "&#39;" s3.

End OutputFormatterUtilities.

(** ** CommandHistoryService, continued: queries *)

Module CommandHistoryQueries.

Import CommandHistoryService.

Definition searchHistory (searchTerm : string) (st : State) : list string :=
  if trim searchTerm =? EmptyString then history st
  else
    let lowerSearchTerm := toLowerCase searchTerm in
    filter (fun command => stringIncludes (toLowerCase command) lowerSearchTerm)
           (history st).

(** [getRecentCommands(count = 5)]; [None] is the omitted argument. *)
Definition getRecentCommands (count : option Z) (st : State) : list string :=
  let count := match count with Some c => c | None => 5%Z end in
  sliceFrom (history st) (- count).

Definition isAtBeginning (st : State) : bool := (currentIndex st =? 0)%Z.

Definition isAtEnd (st : State) : bool :=
  (currentIndex st >=? Z.of_nat (List.length (history st)))%Z.

(** The calls that change the state of the history service; the import
    of a serialized history is left out. *)
Inductive Call : Type :=
| AddCommand (command : string)
| GetPreviousCommand
| GetNextCommand
| SetTempCommand (command : string)
| ResetNavigation
| ClearHistory.

Definition perform (call : Call) (st : State) : State :=
  match call with
  | AddCommand command => addCommand command st
  | GetPreviousCommand => snd (getPreviousCommand st)
  | GetNextCommand => snd (getNextCommand st)
  | SetTempCommand command => setTempCommand command st
  | ResetNavigation => resetNavigation st
  | ClearHistory => clearHistory st
  end.

Definition performAll (calls : list Call) (st : State) : State :=
  fold_left (fun st call => perform call st) calls st.

End CommandHistoryQueries.

(** ** CommandService, the HTTP pipeline (src/app/core/services/command.service.ts)
       and [handleCommandError] *)

Module CommandServiceOnline.

Import CommandService.

(** What [catchError] may receive: an [HttpErrorResponse] with its status,
    the [TimeoutError] of the [timeout] operator, or an [Error] with its
    message. *)
Inductive Thrown : Type :=
| HttpErrorResponse (status : Z)
| TimeoutError
| ErrorObject (message : string).

(** The body of a response: the output with its [success] flag, and
    [response.error?.message]. *)
Record ServerReply : Type :=
  { reply : CommandOutput; replyErrorMessage : option string }.

(** What the request delivers: a response, a failed request, or nothing
    within the time limit. *)
Inductive Posted : Type :=
| Replied (response : ServerReply)
| RequestFailed (status : Z)
| TimedOut.

Definition processCommandResponse (response : ServerReply) : CommandOutput + Thrown :=
  if negb (success (reply response)) then
    inr (ErrorObject (orElse (replyErrorMessage response) "Command execution failed"))
  else inl (reply response).

Definition handleCommandError (error : Thrown) (w : State) : Failure * State :=
  let commandError :=
    match error with
    | HttpErrorResponse status =>
        if (status =? 400)%Z then
          createCommandError "INVALID_INPUT" "Invalid command format" None
        else if (status =? 404)%Z then
          createCommandError "COMMAND_NOT_FOUND" "Command not found" None
        else if (status =? 429)%Z then
          createCommandError "RATE_LIMIT" "Too many requests. Please wait a moment." None
        else if (status =? 500)%Z then
          createCommandError "SERVER_ERROR" "Internal server error" None
        else createCommandError "NETWORK_ERROR" "Network error occurred" None
    | TimeoutError =>
        createCommandError "TIMEOUT" "Command timed out. Please try again." None
    | ErrorObject message =>
        createCommandError "UNKNOWN_ERROR"
          (orElse (Some message) "An unknown error occurred") None
    end in
  (commandError, setExecutionState ERROR w).

(** What [executeCommand] returns: an observable that only fails, or the
    request for the normalized command with its operators attached. *)
Inductive Submission : Type :=
| Rejected (e : Failure)
| Requested (trimmedCommand : string).

Definition executeCommand (command sessionId : string) (w : State)
  : Submission * State :=
  if isProcessing w then
    (Rejected (JsError "Another command is currently processing"), w)
  else
    let trimmedCommand := toLowerCase (trim command) in
    if negb (isValidCommand trimmedCommand) then
      (Rejected (createCommandError "INVALID_COMMAND"
                   ("Command '" ++ command ++ "' not recognized") None), w)
    else
      let w1 := setExecutionState PROCESSING w in
      let w2 := currentCommandNext (Some trimmedCommand) w1 in
      (Requested trimmedCommand, w2).

(** The subscriber of a submission: what the request delivers passes
    through [timeout], [map], [catchError] and [finalize]. *)
Definition complete (submission : Submission) (posted : Posted) (w : State)
  : Observable CommandOutput * State :=
  match submission with
  | Rejected e => (Rx.throwError e, w)
  | Requested trimmedCommand =>
      let thrown (error : Thrown) : Observable CommandOutput * State :=
        (Rx.throwError (fst (handleCommandError error w)),
         snd (handleCommandError error w)) in
      let (notification, w1) :=
        match posted with
        | Replied response =>
            match processCommandResponse response with
            | inl output => (Rx.of_ output, w)
            | inr error => thrown error
            end
        | RequestFailed status => thrown (HttpErrorResponse status)
        | TimedOut => thrown TimeoutError
        end in
      (notification, finalize trimmedCommand w1)
  end.

End CommandServiceOnline.

(** ** TerminalContainerComponent.executeCommand (terminal-container.component.ts) *)

Module TerminalContainerComponent.

(** What the container does with a command line: nothing; clear the
    display; echo it and call the command service with the trimmed text;
    or echo it and show the NO_SESSION error. *)
Inductive Routed : Type :=
| Ignored
| TerminalCleared
| Forwarded (trimmedCommand sessionId : string)
| NoSession (trimmedCommand : string).

Definition handleBuiltInCommand (command : string) : bool :=
  let cmd := CommandService.firstToken (toLowerCase command) in
  cmd =? "clear".

(** [sessionId] is [None] for [null]; the empty string is falsy too. *)
Definition executeCommand (command : string) (sessionId : option string) : Routed :=
  if trim command =? EmptyString then Ignored
  else
    let trimmedCommand := trim command in
    if handleBuiltInCommand trimmedCommand then TerminalCleared
    else
      match sessionId with
      | None | Some EmptyString => NoSession trimmedCommand
      | Some id => Forwarded trimmedCommand id
      end.

End TerminalContainerComponent.

(** ** CommandInputComponent (command-input.component.ts) *)

Module CommandInputComponent.

Record State : Type :=
  { currentCommand : string;
    showSuggestions : bool;
    suggestions : list string;
    selectedSuggestionIndex : Z;
    commandHistory : list string;
    historyIndex : Z;
    tempCommand : string }.

Definition initial : State :=
  {| currentCommand := EmptyString; showSuggestions := false; suggestions := [];
     selectedSuggestionIndex := (-1)%Z; commandHistory := [];
     historyIndex := (-1)%Z; tempCommand := EmptyString |}.

(** The subscriber of [commandHistory$]. *)
Definition onHistory (history : list string) (st : State) : State :=
  {| currentCommand := currentCommand st;
     showSuggestions := showSuggestions st;
     suggestions := suggestions st;
     selectedSuggestionIndex := selectedSuggestionIndex st;
     commandHistory := history;
     historyIndex := Z.of_nat (List.length history);
     tempCommand := tempCommand st |}.

Definition hideSuggestions (st : State) : State :=
  {| currentCommand := currentCommand st;
     showSuggestions := false;
     suggestions := suggestions st;
     selectedSuggestionIndex := (-1)%Z;
     commandHistory := commandHistory st;
     historyIndex := historyIndex st;
     tempCommand := tempCommand st |}.

Definition setCurrentCommand (command : string) (st : State) : State :=
  {| currentCommand := command;
     showSuggestions := showSuggestions st;
     suggestions := suggestions st;
     selectedSuggestionIndex := selectedSuggestionIndex st;
     commandHistory := commandHistory st;
     historyIndex := historyIndex st;
     tempCommand := tempCommand st |}.

(** Returns what [suggestionsChanged] emits, and the new state. *)
Definition updateSuggestions (st : State) : list string * State :=
  if trim (currentCommand st) =? EmptyString then ([], hideSuggestions st)
  else
    let found := CommandService.getCommandSuggestions (Some (currentCommand st)) in
    (found,
     {| currentCommand := currentCommand st;
        showSuggestions := false;
        suggestions := found;
        selectedSuggestionIndex := (-1)%Z;
        commandHistory := commandHistory st;
        historyIndex := historyIndex st;
        tempCommand := tempCommand st |}).

Definition onInput (value : string) (st : State) : list string * State :=
  updateSuggestions (setCurrentCommand value st).

Definition selectSuggestion (suggestion : string) (st : State) : State :=
  hideSuggestions (setCurrentCommand suggestion st).

Definition clearInput (st : State) : State :=
  hideSuggestions (setCurrentCommand EmptyString st).

Definition resetHistoryNavigation (st : State) : State :=
  {| currentCommand := currentCommand st;
     showSuggestions := showSuggestions st;
     suggestions := suggestions st;
     selectedSuggestionIndex := selectedSuggestionIndex st;
     commandHistory := commandHistory st;
     historyIndex := Z.of_nat (List.length (commandHistory st));
     tempCommand := EmptyString |}.

(** Returns what [commandSubmitted] emits, if anything, and the new
    state. *)
Definition submitCommand (st : State) : option string * State :=
  let command := trim (currentCommand st) in
  if command =? EmptyString then (None, st)
  else (Some command, resetHistoryNavigation (clearInput st)).

(** [None]: the code reads an index outside [suggestions] and puts
    [undefined] in the input. *)
Definition handleEnterKey (st : State) : option (option string * State) :=
  if showSuggestions st && (selectedSuggestionIndex st >=? 0)%Z then
    match at_ (suggestions st) (selectedSuggestionIndex st) with
    | Some suggestion => Some (None, selectSuggestion suggestion st)
    | None => None
    end
  else if negb (trim (currentCommand st) =? EmptyString) then Some (submitCommand st)
  else Some (None, st).

Definition handleTabCompletion (st : State) : State :=
  match suggestions st with
  | [] => st
  | [only] => selectSuggestion only st
  | _ =>
      let nextIndex :=
        Z.rem (selectedSuggestionIndex st + 1)
              (Z.of_nat (List.length (suggestions st))) in
      {| currentCommand := currentCommand st;
         showSuggestions := true;
         suggestions := suggestions st;
         selectedSuggestionIndex := nextIndex;
         commandHistory := commandHistory st;
         historyIndex := historyIndex st;
         tempCommand := tempCommand st |}
  end.

Definition handleEscape (st : State) : State :=
  if showSuggestions st then hideSuggestions st else clearInput st.

Inductive Direction : Type := up | down.

Definition setHistoryIndex (i : Z) (st : State) : State :=
  {| currentCommand := currentCommand st;
     showSuggestions := showSuggestions st;
     suggestions := suggestions st;
     selectedSuggestionIndex := selectedSuggestionIndex st;
     commandHistory := commandHistory st;
     historyIndex := i;
     tempCommand := tempCommand st |}.

Definition setTempCommand (command : string) (st : State) : State :=
  {| currentCommand := currentCommand st;
     showSuggestions := showSuggestions st;
     suggestions := suggestions st;
     selectedSuggestionIndex := selectedSuggestionIndex st;
     commandHistory := commandHistory st;
     historyIndex := historyIndex st;
     tempCommand := command |}.

(** [None]: the code reads an index outside [commandHistory] and puts
    [undefined] in the input. *)
Definition navigateHistory (direction : Direction) (st : State) : option State :=
  let length := Z.of_nat (List.length (commandHistory st)) in
  if (length =? 0)%Z then Some st
  else
    match direction with
    | up =>
        let st1 :=
          if (historyIndex st =? length)%Z
          then setTempCommand (currentCommand st) st else st in
        if (historyIndex st1 >? 0)%Z then
          let i := (historyIndex st1 - 1)%Z in
          match at_ (commandHistory st1) i with
          | Some entry =>
              Some (hideSuggestions (setCurrentCommand entry (setHistoryIndex i st1)))
          | None => None
          end
        else Some (hideSuggestions st1)
    | down =>
        if (historyIndex st <? length - 1)%Z then
          let i := (historyIndex st + 1)%Z in
          match at_ (commandHistory st) i with
          | Some entry =>
              Some (hideSuggestions (setCurrentCommand entry (setHistoryIndex i st)))
          | None => None
          end
        else if (historyIndex st =? length - 1)%Z then
          Some (hideSuggestions
                  (setCurrentCommand (tempCommand st) (setHistoryIndex length st)))
        else Some (hideSuggestions st)
    end.

(** [n] presses of the same arrow key. *)
Fixpoint navigateTimes (direction : Direction) (n : nat) (st : State) : option State :=
  match n with
  | O => Some st
  | S m =>
      match navigateHistory direction st with
      | Some st1 => navigateTimes direction m st1
      | None => None
      end
  end.

End CommandInputComponent.

(** ** Specification-side notions, continued *)

(** [s] is empty or starts with a character that is no white space. *)
Definition startsClean (s : string) : Prop :=
  match s with
  | EmptyString => True
  | String c _ => isWhiteSpace c = false
  end.

(** The text the command service works on: trimmed, in lower case. *)
Definition normalized (raw : string) : string := toLowerCase (trim raw).

(** The command names with a resolver branch of their own: every
    registered name but [clear]. *)
Definition implemented : list string :=
  [ "help"; "summary"; "aboutme"; "skills"; "experience"; "education";
    "highlights"; "tryme"; "download"; "theme" ].

(** The states of the command service and the command in flight, if any,
    after any sequence of submissions, completions of the command in
    flight and history clearings, with each returned observable subscribed
    once. *)
Inductive Reachable {S : Type} (sessionService : SessionApi S)
          (skillsJson : Observable CommandService.SkillsData)
          (assetBranch : string -> Observable OutputContent)
          (documentThrows : bool)
  : CommandService.State -> option string -> Prop :=
| Reachable_initial :
    Reachable sessionService skillsJson assetBranch documentThrows CommandService.initial None
| Reachable_rejected w pending raw sessionId s e w1 s1 :
    Reachable sessionService skillsJson assetBranch documentThrows w pending ->
    CommandService.executeCommand sessionService skillsJson assetBranch documentThrows
      raw sessionId w s = (CommandService.Rejected e, w1, s1) ->
    Reachable sessionService skillsJson assetBranch documentThrows w1 pending
| Reachable_accepted w pending raw sessionId s c pipeline w1 s1 :
    Reachable sessionService skillsJson assetBranch documentThrows w pending ->
    CommandService.executeCommand sessionService skillsJson assetBranch documentThrows
      raw sessionId w s = (CommandService.InFlight c pipeline, w1, s1) ->
    Reachable sessionService skillsJson assetBranch documentThrows w1 (Some c)
| Reachable_completed w c :
    Reachable sessionService skillsJson assetBranch documentThrows w (Some c) ->
    Reachable sessionService skillsJson assetBranch documentThrows (CommandService.finalize c w) None
| Reachable_cleared w pending :
    Reachable sessionService skillsJson assetBranch documentThrows w pending ->
    Reachable sessionService skillsJson assetBranch documentThrows (CommandService.clearHistory w) pending.

(** What holds of the service state with command [pending] in flight. *)
Definition consistent (w : CommandService.State) (pending : option string) : Prop :=
  match pending with
  | None => CommandService.executionState w = IDLE /\ CommandService.currentCommand w = None
  | Some c =>
      CommandService.executionState w = PROCESSING /\ CommandService.currentCommand w = Some c /\
      CommandService.isValidCommand c = true /\ normalized c = c
  end
  /\ (List.length (CommandService.commandHistory w) <= 50)%nat
  /\ noConsecutiveDuplicates (CommandService.commandHistory w)
  /\ Forall (fun entry => CommandService.isValidCommand entry = true /\ normalized entry = entry)
            (CommandService.commandHistory w).

(** The request of the HTTP pipeline did not deliver a successful
    response. *)
Definition requestFailed (posted : CommandServiceOnline.Posted) : bool :=
  match posted with
  | CommandServiceOnline.Replied response =>
      negb (success (CommandServiceOnline.reply response))
  | _ => true
  end.

(** What the history subject emits when [command] is appended to [log]. *)
Definition historyEmission (command : string) (log : list string)
  : list CommandService.Emission :=
  if differs (lastElement log) command
  then [CommandService.CommandHistoryNext (appendBounded 50 command log)]
  else [].

(** What every state of the history service satisfies: the cursor is
    between -1 and the length, the log holds at most 50 entries, no two
    equal neighbours, and only trimmed, non-empty commands. *)
Definition trackerInvariant (st : CommandHistoryService.State) : Prop :=
  (-1 <= CommandHistoryService.currentIndex st
   <= Z.of_nat (List.length (CommandHistoryService.history st)))%Z
  /\ (List.length (CommandHistoryService.history st) <= 50)%nat
  /\ noConsecutiveDuplicates (CommandHistoryService.history st)
  /\ Forall (fun entry => trim entry = entry /\ entry <> EmptyString)
            (CommandHistoryService.history st).

(** Text without star, backtick, newline or carriage return. *)
Definition plainText (s : string) : Prop :=
  countChar "*" s = 0%nat /\ countChar "`" s = 0%nat /\
  countChar newline s = 0%nat /\ countChar carriageReturn s = 0%nat.

(** The four characters [sanitizeHtml] replaces. *)
Definition htmlSpecial : list ascii :=
  [lessThan; greaterThan; doubleQuote; singleQuote].

(** ** CommandInputComponent, continued: the event handlers *)

Module CommandInputEvents.

Import CommandInputComponent.

Inductive Key : Type :=
| Enter | ArrowUp | ArrowDown | Tab | ArrowLeft | ArrowRight | Escape
| OtherKey.

(** [onKeydown]: what [commandSubmitted] emits, if anything, and the new
    state; [None] when [undefined] is put in the input.  For any other
    key the suggestions are updated once the input has changed, which
    [onInput] does. *)
Definition onKeydown (key : Key) (st : State) : option (option string * State) :=
  match key with
  | Enter => handleEnterKey st
  | ArrowUp => option_map (fun st1 => (None, st1)) (navigateHistory up st)
  | ArrowDown => option_map (fun st1 => (None, st1)) (navigateHistory down st)
  | Tab => Some (None, handleTabCompletion st)
  | ArrowLeft | ArrowRight => Some (None, hideSuggestions st)
  | Escape => Some (None, handleEscape st)
  | OtherKey => Some (None, snd (updateSuggestions st))
  end.

(** What happens to the component: the history subject emits, the input
    value changes, the input gains focus, the delayed callback of [onBlur]
    finds the input still out of focus, a key goes down. *)
Inductive Event : Type :=
| HistoryEmitted (history : list string)
| InputChanged (value : string)
| Focused
| Blurred
| KeyDown (key : Key).

Definition handle (event : Event) (st : State) : option State :=
  match event with
  | HistoryEmitted history => Some (onHistory history st)
  | InputChanged value => Some (snd (onInput value st))
  | Focused => Some (snd (updateSuggestions st))
  | Blurred => Some (hideSuggestions st)
  | KeyDown key => option_map snd (onKeydown key st)
  end.

Fixpoint handleAll (events : list Event) (st : State) : option State :=
  match events with
  | [] => Some st
  | event :: rest =>
      match handle event st with
      | Some st1 => handleAll rest st1
      | None => None
      end
  end.

End CommandInputEvents.

(** The input component while the history is browsed: [entry] shown in
    the input, the cursor at position [i], [saved] kept as the input to
    come back to; suggestions hidden. *)
Definition browsing (st : CommandInputComponent.State) (saved entry : string) (i : nat)
  : CommandInputComponent.State :=
  {| CommandInputComponent.currentCommand := entry;
     CommandInputComponent.showSuggestions := false;
     CommandInputComponent.suggestions := CommandInputComponent.suggestions st;
     CommandInputComponent.selectedSuggestionIndex := (-1)%Z;
     CommandInputComponent.commandHistory := CommandInputComponent.commandHistory st;
     CommandInputComponent.historyIndex := Z.of_nat i;
     CommandInputComponent.tempCommand := saved |}.

(** What every state of the input component satisfies: the history
    cursor is between -1 and the length, and a shown selection is an
    index of the suggestion list. *)
Definition inputInvariant (st : CommandInputComponent.State) : Prop :=
  (-1 <= CommandInputComponent.historyIndex st
   <= Z.of_nat (List.length (CommandInputComponent.commandHistory st)))%Z
  /\ (-1 <= CommandInputComponent.selectedSuggestionIndex st)%Z
  /\ (CommandInputComponent.showSuggestions st = true ->
      (CommandInputComponent.selectedSuggestionIndex st
       < Z.of_nat (List.length (CommandInputComponent.suggestions st)))%Z).

(** * Properties *)

(** ** The primitives on examples *)

Example trim_example : trim "  skills  frontend " = "skills  frontend".
Proof. reflexivity. Qed.

Example split_example : split space "a  b " = ["a"; ""; "b"; ""].
Proof. reflexivity. Qed.

Example split_empty : split space "" = [""].
Proof. reflexivity. Qed.

Example toLowerCase_example : toLowerCase "Theme DARK_1" = "theme dark_1".
Proof. reflexivity. Qed.

Example processTextContent_example :
  OutputFormatterService.processTextContent
    ("a **b** *c* `d`" ++ CommandService.nl ++ "e **f* g")
  = "a <strong>b</strong> <em>c</em> <code>d</code><br>e <em></em>f* g".
Proof. reflexivity. Qed.

Example processTextContent_line_terminator :
  OutputFormatterService.processTextContent ("*a" ++ CommandService.nl ++ "b*")
  = "*a<br>b*".
Proof. reflexivity. Qed.

Example addToHistory_example :
  serviceLog ["help"; "help"; "skills"; "help"] CommandService.initial
  = ["help"; "skills"; "help"].
Proof. reflexivity. Qed.

(** ** Strings *)

Lemma ascii_cases (P : ascii -> Prop) :
  (forall b0 b1 b2 b3 b4 b5 b6 b7, P (Ascii b0 b1 b2 b3 b4 b5 b6 b7)) ->
  forall c, P c.
Proof. intros H [b0 b1 b2 b3 b4 b5 b6 b7]. apply H. Qed.

Ltac by_ascii_cases :=
  let c := fresh "c" in
  intro c; pattern c; apply ascii_cases;
  intros [] [] [] [] [] [] [] []; vm_compute; reflexivity.

Lemma lowerChar_whiteSpace : forall c, isWhiteSpace (lowerChar c) = isWhiteSpace c.
Proof. by_ascii_cases. Qed.

Lemma lowerChar_space : forall c, Ascii.eqb (lowerChar c) space = Ascii.eqb c space.
Proof. by_ascii_cases. Qed.

Lemma lowerChar_idempotent : forall c, lowerChar (lowerChar c) = lowerChar c.
Proof. by_ascii_cases. Qed.

Lemma toLowerCase_idempotent s : toLowerCase (toLowerCase s) = toLowerCase s.
Proof.
  induction s as [|c r IH]; simpl; [reflexivity|].
  now rewrite lowerChar_idempotent, IH.
Qed.

Lemma toLowerCase_append a b :
  toLowerCase (a ++ b) = toLowerCase a ++ toLowerCase b.
Proof. induction a as [|c r IH]; simpl; [reflexivity | now rewrite IH]. Qed.

Lemma allChars_toLowerCase p s :
  (forall c, p (lowerChar c) = p c) ->
  allChars p (toLowerCase s) = allChars p s.
Proof.
  intros Hp. induction s as [|c r IH]; simpl; [reflexivity|].
  now rewrite Hp, IH.
Qed.

Lemma includes_In l x : includes l x = true <-> In x l.
Proof.
  unfold includes. rewrite existsb_exists. split.
  - intros [y [Hy E]]. apply String.eqb_eq in E. now subst.
  - intros H. exists x. split; [assumption | apply String.eqb_refl].
Qed.

Lemma includes_not_In l x : includes l x = false <-> ~ In x l.
Proof.
  rewrite <- includes_In. destruct (includes l x); split; intros H;
    try reflexivity; try discriminate; congruence.
Qed.

Lemma split_not_empty sep s : split sep s <> [].
Proof.
  destruct s as [|c r]; simpl; [discriminate|].
  destruct (Ascii.eqb c sep); [discriminate|].
  destruct (split sep r); discriminate.
Qed.

Lemma firstToken_cons c r :
  CommandService.firstToken (String c r)
  = if Ascii.eqb c space then EmptyString
    else String c (CommandService.firstToken r).
Proof.
  unfold CommandService.firstToken. simpl.
  destruct (Ascii.eqb c space); [reflexivity|].
  destruct (split space r) eqn:E; [|reflexivity].
  now apply split_not_empty in E.
Qed.

Lemma firstToken_self t :
  allChars notSpace t = true -> CommandService.firstToken t = t.
Proof.
  induction t as [|c r IH]; [reflexivity|].
  simpl. unfold notSpace at 1. intros H. apply andb_prop in H as [Hc Hr].
  rewrite firstToken_cons. apply negb_true_iff in Hc. rewrite Hc.
  now rewrite IH.
Qed.

Lemma firstToken_append t rest :
  allChars notSpace t = true ->
  CommandService.firstToken (t ++ String space rest) = t.
Proof.
  induction t as [|c r IH]; intros H.
  - simpl. now rewrite firstToken_cons.
  - simpl in H. unfold notSpace at 1 in H. apply andb_prop in H as [Hc Hr].
    simpl. rewrite firstToken_cons. apply negb_true_iff in Hc. rewrite Hc.
    now rewrite IH.
Qed.

Lemma firstToken_untilWhiteSpace s :
  allChars notWhiteSpace (CommandService.firstToken s) = true ->
  untilWhiteSpace s = CommandService.firstToken s.
Proof.
  induction s as [|c r IH]; [reflexivity|].
  rewrite firstToken_cons. simpl.
  destruct (Ascii.eqb c space) eqn:E.
  - apply Ascii.eqb_eq in E. subst c. reflexivity.
  - simpl. unfold notWhiteSpace at 1. intros H. apply andb_prop in H as [Hc Hr].
    apply negb_true_iff in Hc. rewrite Hc. now rewrite IH.
Qed.

(** Registered names hold no white space, hence no space, and are not
    empty: so does any string that spells one of them in any case. *)
Lemma registered_shape t :
  registered t ->
  allChars notWhiteSpace t = true /\ allChars notSpace t = true /\ t <> EmptyString
  /\ CommandService.isValidCommand (toLowerCase t) = true.
Proof.
  unfold registered. intros H.
  assert (G : allChars notWhiteSpace (toLowerCase t) = true
              /\ allChars notSpace (toLowerCase t) = true
              /\ toLowerCase t <> EmptyString
              /\ CommandService.isValidCommand (toLowerCase t) = true).
  { simpl in H.
    repeat (destruct H as [H|H];
            [rewrite <- H; repeat split; try reflexivity; discriminate|]).
    destruct H. }
  destruct G as (G1 & G2 & G3 & G4).
  rewrite allChars_toLowerCase in G1
    by (intro c; unfold notWhiteSpace; now rewrite lowerChar_whiteSpace).
  rewrite allChars_toLowerCase in G2
    by (intro c; unfold notSpace; now rewrite lowerChar_space).
  repeat split; try assumption.
  intros ->. now apply G3.
Qed.

Lemma registered_lower c : In c AVAILABLE_COMMANDS -> toLowerCase c = c.
Proof.
  simpl. intros H.
  repeat (destruct H as [H|H]; [now rewrite <- H|]). destruct H.
Qed.

Lemma registered_In c : In c AVAILABLE_COMMANDS -> registered c.
Proof. intros H. unfold registered. now rewrite registered_lower. Qed.

Lemma isValidCommand_registered s :
  CommandService.isValidCommand s = true <-> registered (CommandService.firstToken s).
Proof. unfold CommandService.isValidCommand, registered. apply includes_In. Qed.

Lemma trimStart_firstToken s :
  CommandService.firstToken s <> EmptyString ->
  allChars notWhiteSpace (CommandService.firstToken s) = true ->
  trimStart s = s.
Proof.
  destruct s as [|c r]; [reflexivity|].
  rewrite firstToken_cons. destruct (Ascii.eqb c space); [congruence|].
  simpl. unfold notWhiteSpace at 1. intros _ H. apply andb_prop in H as [Hc _].
  apply negb_true_iff in Hc. now rewrite Hc.
Qed.

Lemma prefix_append p s : prefix p s = true <-> exists rest, s = p ++ rest.
Proof.
  revert s. induction p as [|c r IH]; intros s.
  - split; [intros _; exists s; reflexivity | intros _; now destruct s].
  - destruct s as [|d t]; simpl.
    + split; [discriminate | intros [rest E]; discriminate].
    + destruct (ascii_dec c d) as [->|Hne].
      * rewrite IH. split; intros [rest E]; exists rest; congruence.
      * split; [discriminate | intros [rest E]; congruence].
Qed.

Lemma Subsequence_filter {A} (f : A -> bool) l : Subsequence (filter f l) l.
Proof.
  induction l as [|x r IH]; simpl; [constructor|].
  destruct (f x); now constructor.
Qed.

(** ** Validation (C3, C10) *)

Section Validation.

Import CommandService.

Lemma isValidCommand_spelling t anything :
  registered t ->
  isValidCommand t = true /\ isValidCommand (t ++ " " ++ anything) = true.
Proof.
  intros H. destruct (registered_shape t H) as (_ & Hsp & _ & _).
  split; apply isValidCommand_registered.
  - now rewrite firstToken_self.
  - simpl. now rewrite firstToken_append.
Qed.

Lemma isValidCommand_firstWord s :
  isValidCommand s = true ->
  untilWhiteSpace s = firstToken s /\ firstWord s = firstToken s.
Proof.
  intros H. apply isValidCommand_registered in H.
  destruct (registered_shape _ H) as (Hws & _ & Hne & _).
  assert (E : untilWhiteSpace s = firstToken s)
    by now apply firstToken_untilWhiteSpace.
  split; [assumption|].
  unfold firstWord. now rewrite trimStart_firstToken.
Qed.

(** C3. Every registered command name is valid, alone and followed by a
    space and anything; so is any spelling of it in another case; and an
    ASCII string whose first white-space-delimited token (the characters
    before the first white space, or the first word after leading white
    space) is no registered name is not valid. *)
Theorem validation_by_first_token :
  (forall c, In c AVAILABLE_COMMANDS -> isValidCommand c = true) /\
  (forall c anything,
      In c AVAILABLE_COMMANDS -> isValidCommand (c ++ " " ++ anything) = true) /\
  (forall t anything,
      registered t ->
      isValidCommand t = true /\ isValidCommand (t ++ " " ++ anything) = true) /\
  (forall s, asciiText s ->
             ~ registered (untilWhiteSpace s) -> isValidCommand s = false) /\
  (forall s, asciiText s ->
             ~ registered (firstWord s) -> isValidCommand s = false).
Proof.
  split; [|split; [|split; [|split]]].
  - intros c H. now apply (isValidCommand_spelling c EmptyString), registered_In.
  - intros c anything H. now apply isValidCommand_spelling, registered_In.
  - apply isValidCommand_spelling.
  - intros s _ H. destruct (isValidCommand s) eqn:E; [|reflexivity].
    exfalso. apply H. destruct (isValidCommand_firstWord s E) as [-> _].
    now apply isValidCommand_registered.
  - intros s _ H. destruct (isValidCommand s) eqn:E; [|reflexivity].
    exfalso. apply H. destruct (isValidCommand_firstWord s E) as [_ ->].
    now apply isValidCommand_registered.
Qed.

Lemma validation_by_first_token_witness :
  isValidCommand "skills" = true /\
  isValidCommand ("skills" ++ " " ++ "frontend") = true /\
  isValidCommand ("SKILLS" ++ " " ++ "frontend") = true /\
  isValidCommand "skils frontend" = false /\
  isValidCommand "  bogus" = false.
Proof.
  destruct validation_by_first_token as (H1 & H2 & H3 & H4 & H5).
  split; [|split; [|split; [|split]]].
  - apply H1. simpl. tauto.
  - apply H2. simpl. tauto.
  - apply (H3 "SKILLS" "frontend"). unfold registered. simpl. tauto.
  - apply H4; [reflexivity|]. unfold registered. simpl. intuition discriminate.
  - apply H5; [reflexivity|]. unfold registered. simpl. intuition discriminate.
Defined.

End Validation.

(** ** Suggestions (C8) *)

Section Suggestions.

Import CommandService.

Lemma startsWith_prefixIgnoringCase p c :
  startsWith (toLowerCase c) (toLowerCase p) = true <-> prefixIgnoringCase p c.
Proof. unfold startsWith, prefixIgnoringCase. apply prefix_append. Qed.

(** C8. With an absent or empty partial the suggestions are the whole
    registry in declaration order; with a non-empty ASCII partial they
    are the registered names that have it as a prefix when case is
    ignored, in declaration order. *)
Theorem suggestions_are_prefix_matches :
  getCommandSuggestions None = AVAILABLE_COMMANDS /\
  getCommandSuggestions (Some EmptyString) = AVAILABLE_COMMANDS /\
  (forall p,
      p <> EmptyString ->
      asciiText p ->
      Subsequence (getCommandSuggestions (Some p)) AVAILABLE_COMMANDS /\
      forall c,
        In c (getCommandSuggestions (Some p)) <->
        In c AVAILABLE_COMMANDS /\ prefixIgnoringCase p c) /\
  getCommandSuggestions (Some "he") = ["help"] /\
  getCommandSuggestions (Some "xyz") = [] /\
  In "help" (getCommandSuggestions (Some "HE")).
Proof.
  split; [reflexivity|]. split; [reflexivity|].
  split; [|repeat split; simpl; tauto].
  intros p Hp _. destruct p as [|a r]; [congruence|].
  unfold getCommandSuggestions. split.
  - apply Subsequence_filter.
  - intros c. rewrite filter_In. now rewrite startsWith_prefixIgnoringCase.
Qed.

Lemma suggestions_are_prefix_matches_witness :
  Subsequence (getCommandSuggestions (Some "S")) AVAILABLE_COMMANDS /\
  (In "skills" (getCommandSuggestions (Some "S")) <->
   In "skills" AVAILABLE_COMMANDS /\ prefixIgnoringCase "S" "skills").
Proof.
  destruct suggestions_are_prefix_matches as (_ & _ & H & _).
  destruct (H "S") as [H1 H2]; [discriminate | reflexivity |].
  split; [exact H1 | exact (H2 "skills")].
Defined.

End Suggestions.

(** ** Arrays *)

Lemma lastElement_nil : lastElement [] = None.
Proof. reflexivity. Qed.

Lemma lastElement_snoc h x : lastElement (h ++ [x]) = Some x.
Proof.
  unfold lastElement, at_. rewrite length_app. simpl.
  replace (Z.of_nat (List.length h + 1) - 1)%Z with (Z.of_nat (List.length h)) by lia.
  destruct (Z.ltb_spec (Z.of_nat (List.length h)) 0); [lia|].
  rewrite Nat2Z.id, nth_error_app2 by lia.
  now rewrite Nat.sub_diag.
Qed.

Lemma lastElement_rev h :
  lastElement h = match rev h with [] => None | newest :: _ => Some newest end.
Proof.
  destruct h as [|x r] using rev_ind; [reflexivity|].
  now rewrite lastElement_snoc, rev_unit.
Qed.

(** ** Execution state machine (C1, C2, C10) *)

Section Execution.

Import CommandService.

Context {S : Type}.
Variable sessionService : SessionApi S.
Variable skillsJson : Observable SkillsData.
Variable assetBranch : string -> Observable OutputContent.
Variable documentThrows : bool.

Local Abbreviation submit := (executeCommand sessionService skillsJson assetBranch documentThrows).

Lemma addToHistory_appendBounded command w :
  commandHistory (addToHistory command w)
  = appendBounded 50 command (commandHistory w).
Proof.
  unfold addToHistory, appendBounded, shift.
  rewrite lastElement_rev.
  destruct (rev (commandHistory w)) as [|newest l]; simpl.
  - now destruct (50 <? _)%nat.
  - destruct (newest =? command); simpl; [reflexivity|].
    now destruct (50 <? _)%nat.
Qed.

Lemma addToHistory_emitted command w :
  emitted (addToHistory command w)
  = (emitted w
     ++ if differs (lastElement (commandHistory w)) command
        then [CommandHistoryNext (appendBounded 50 command (commandHistory w))]
        else [])%list.
Proof.
  rewrite <- addToHistory_appendBounded. unfold addToHistory.
  destruct (differs _ command); simpl; [reflexivity | now rewrite app_nil_r].
Qed.

Lemma addToHistory_flags command w :
  executionState (addToHistory command w) = executionState w /\
  currentCommand (addToHistory command w) = currentCommand w.
Proof. unfold addToHistory. now destruct (differs _ command). Qed.

(** C1. While the execution state is PROCESSING a submission is rejected
    with the concurrent-execution error: no pipeline is built, the
    service state (execution state, current command, history, emissions)
    and the collaborator state are unchanged, subscribing delivers the
    error only, and the completion of the command in flight is what it
    would have been without the rejected call. *)
Theorem single_flight_guard rawText sessionId w s :
  executionState w = PROCESSING ->
  submit rawText sessionId w s = (Rejected concurrentError, w, s) /\
  complete (Rejected concurrentError) w = (Throws concurrentError, w) /\
  forall inflight,
    complete inflight (snd (fst (submit rawText sessionId w s)))
    = complete inflight w.
Proof.
  intros H.
  assert (E : submit rawText sessionId w s = (Rejected concurrentError, w, s)).
  { unfold executeCommand, isProcessing. now rewrite H. }
  split; [exact E|]. split; [reflexivity|].
  intros inflight. now rewrite E.
Qed.

Lemma executeCommand_accepted rawText sessionId w s c pipeline w1 s1 :
  submit rawText sessionId w s = (InFlight c pipeline, w1, s1) ->
  isProcessing w = false /\
  c = toLowerCase (trim rawText) /\
  isValidCommand c = true /\
  w1 = currentCommandNext (Some c) (setExecutionState PROCESSING w) /\
  (pipeline, s1) = executeOfflineCommand sessionService skillsJson assetBranch documentThrows c s.
Proof.
  unfold executeCommand.
  destruct (isProcessing w); [discriminate|].
  destruct (isValidCommand (toLowerCase (trim rawText))) eqn:V; simpl;
    [|discriminate].
  destruct (executeOfflineCommand _ _ _ _ _ s) as [p s'] eqn:X.
  intros E. injection E as <- <- <- <-. now repeat split.
Qed.

(** C2. A submission that passes validation enters PROCESSING with the
    command in flight as current command; for ASCII text that command is
    the trimmed, lower-cased text.  When its pipeline completes,
    with any notification, value or error, the subscriber receives that
    notification and exactly these emissions follow, in this order: the
    execution state IDLE, the current command null, and the history
    append of the command in flight, which emits the new log unless the
    command equals the newest entry. *)
Theorem finalize_runs_in_order rawText sessionId w s c pipeline w1 s1 :
  submit rawText sessionId w s = (InFlight c pipeline, w1, s1) ->
  ((asciiText rawText -> c = toLowerCase (trim rawText)) /\
   executionState w1 = PROCESSING /\
   currentCommand w1 = Some c /\
   commandHistory w1 = commandHistory w) /\
  forall (outcome : Observable CommandOutput) (wp : State),
    let (notification, w2) := complete (InFlight c outcome) wp in
    notification = outcome /\
    executionState w2 = IDLE /\
    currentCommand w2 = None /\
    commandHistory w2 = appendBounded 50 c (commandHistory wp) /\
    emitted w2
    = (emitted wp
       ++ [ExecutionStateNext IDLE; CurrentCommandNext None]
       ++ if differs (lastElement (commandHistory wp)) c
          then [CommandHistoryNext (appendBounded 50 c (commandHistory wp))]
          else [])%list.
Proof.
  intros H. apply executeCommand_accepted in H as (_ & Hc & _ & Hw & _).
  split; [subst w1; now repeat split|].
  intros outcome wp. simpl. unfold finalize.
  split; [reflexivity|].
  destruct (addToHistory_flags c
              (currentCommandNext None (setExecutionState IDLE wp))) as [E1 E2].
  rewrite E1, E2, addToHistory_appendBounded, addToHistory_emitted. simpl.
  repeat split. now rewrite <- !app_assoc.
Qed.

(** C10. A registered command name with a leading space is not valid for
    [isValidCommand], whose first token is then empty; [executeCommand]
    accepts the same text when idle, since it validates the trimmed,
    lower-cased text. *)
Theorem leading_space_validate_and_submit_disagree c sessionId w s :
  In c AVAILABLE_COMMANDS ->
  isProcessing w = false ->
  firstToken (" " ++ c) = EmptyString /\
  isValidCommand (" " ++ c) = false /\
  exists pipeline s1,
    submit (" " ++ c) sessionId w s
    = (InFlight c pipeline,
       currentCommandNext (Some c) (setExecutionState PROCESSING w), s1).
Proof.
  intros H Hw. split; [reflexivity|]. split; [reflexivity|].
  unfold executeCommand. rewrite Hw.
  assert (E : toLowerCase (trim (" " ++ c)) = c /\ isValidCommand c = true).
  { simpl in H.
    repeat (destruct H as [H|H]; [rewrite <- H; split; reflexivity|]).
    destruct H. }
  destruct E as [-> ->]. simpl.
  destruct (executeOfflineCommand _ _ _ _ c s) as [p s1].
  now exists p, s1.
Qed.

End Execution.


(** ** The bounded history log (C4) *)

Section BoundedLog.

Variable cap : nat.
Hypothesis cap_positive : (0 < cap)%nat.

Lemma appendBounded_duplicate command log :
  lastElement log = Some command -> appendBounded cap command log = log.
Proof.
  rewrite lastElement_rev. unfold appendBounded.
  destruct (rev log) as [|newest l]; [discriminate|].
  intros E. injection E as ->. now rewrite String.eqb_refl.
Qed.

Lemma appendBounded_push command log :
  lastElement log <> Some command ->
  appendBounded cap command log
  = if (cap <? List.length (log ++ [command]))%nat
    then tl (log ++ [command]) else (log ++ [command])%list.
Proof.
  rewrite lastElement_rev. unfold appendBounded.
  destruct (rev log) as [|newest l]; [reflexivity|].
  intros H. destruct (String.eqb_spec newest command); [congruence | reflexivity].
Qed.

Lemma appendBounded_cases command log :
  appendBounded cap command log = log /\ lastElement log = Some command
  \/ lastElement log <> Some command /\
     (appendBounded cap command log = (log ++ [command])%list /\
      (List.length log < cap)%nat
      \/ appendBounded cap command log = (tl log ++ [command])%list /\
         (cap <= List.length log)%nat).
Proof.
  destruct (lastElement log) as [newest|] eqn:E.
  - destruct (string_dec newest command) as [->|Hne].
    + left. split; [|reflexivity]. apply appendBounded_duplicate. exact E.
    + right. assert (Hd : lastElement log <> Some command) by congruence.
      rewrite <- E. split; [exact Hd|].
      rewrite appendBounded_push by exact Hd. rewrite length_app. simpl.
      destruct (Nat.ltb_spec cap (List.length log + 1)).
      * right. split; [|lia]. destruct log; [discriminate | reflexivity].
      * left. split; [reflexivity | lia].
  - right. split; [discriminate|].
    rewrite appendBounded_push by (rewrite E; discriminate).
    rewrite length_app. simpl.
    destruct (Nat.ltb_spec cap (List.length log + 1)).
    + right. split; [|lia]. destruct log; [simpl in *; lia | reflexivity].
    + left. split; [reflexivity | lia].
Qed.

Lemma appendBounded_length command log :
  (List.length log <= cap)%nat ->
  (List.length (appendBounded cap command log) <= cap)%nat.
Proof.
  intros H.
  destruct (appendBounded_cases command log)
    as [[-> _] | [_ [[-> L] | [-> L]]]]; rewrite ?length_app; simpl; try lia.
  destruct log; simpl in *; lia.
Qed.

Lemma appendBounded_newest command log :
  lastElement (appendBounded cap command log) = Some command.
Proof.
  destruct (appendBounded_cases command log)
    as [[-> E] | [_ [[-> _] | [-> _]]]];
    [exact E | apply lastElement_snoc | apply lastElement_snoc].
Qed.

Lemma noConsecutiveDuplicates_tl log :
  noConsecutiveDuplicates log -> noConsecutiveDuplicates (tl log).
Proof.
  destruct log as [|x [|y r]]; simpl; try tauto.
Qed.

Lemma noConsecutiveDuplicates_snoc command log :
  noConsecutiveDuplicates log ->
  lastElement log <> Some command ->
  noConsecutiveDuplicates (log ++ [command]).
Proof.
  induction log as [|x r IH]; [simpl; tauto|].
  intros H Hl. destruct r as [|y r'].
  - simpl. split; [|exact I]. intros ->. now apply Hl.
  - destruct H as [Hxy H]. change ((x :: y :: r') ++ [command])%list
      with (x :: (y :: r') ++ [command])%list.
    simpl. split; [exact Hxy|]. apply IH; [exact H|].
    intros E. apply Hl. rewrite lastElement_rev in *. simpl in *.
    destruct (rev r' ++ [y])%list eqn:R; [now destruct (rev r')|].
    simpl. exact E.
Qed.

Lemma lastElement_tl log :
  (2 <= List.length log)%nat -> lastElement (tl log) = lastElement log.
Proof.
  destruct log as [|x r]; [simpl; lia|]. simpl. intros H.
  rewrite !lastElement_rev. simpl.
  destruct (rev r) eqn:R; [|reflexivity].
  apply (f_equal (@List.length _)) in R. rewrite length_rev in R. simpl in R. lia.
Qed.

Lemma appendBounded_noConsecutiveDuplicates command log :
  noConsecutiveDuplicates log ->
  noConsecutiveDuplicates (appendBounded cap command log).
Proof.
  intros H.
  destruct (appendBounded_cases command log)
    as [[-> _] | [Hd [[-> _] | [-> L]]]]; [exact H | |].
  - now apply noConsecutiveDuplicates_snoc.
  - destruct log as [|x [|y r]]; [simpl in *; lia | simpl; exact I |].
    apply noConsecutiveDuplicates_snoc.
    + now apply noConsecutiveDuplicates_tl in H.
    + rewrite lastElement_tl; [exact Hd | simpl; lia].
Qed.

End BoundedLog.

Lemma addCommand_history command st :
  CommandHistoryService.history (CommandHistoryService.addCommand command st)
  = if trim command =? EmptyString then CommandHistoryService.history st
    else appendBounded 50 (trim command) (CommandHistoryService.history st).
Proof.
  unfold CommandHistoryService.addCommand, appendBounded, shift,
    CommandHistoryService.maxHistorySize.
  destruct (trim command =? EmptyString); [reflexivity|].
  rewrite lastElement_rev.
  destruct (rev (CommandHistoryService.history st)) as [|newest l]; simpl.
  - now destruct (50 <? _)%nat.
  - destruct (newest =? trim command); simpl; [reflexivity|].
    now destruct (50 <? _)%nat.
Qed.

Lemma serviceLog_invariant commands w :
  (List.length (CommandService.commandHistory w) <= 50)%nat ->
  noConsecutiveDuplicates (CommandService.commandHistory w) ->
  (List.length (serviceLog commands w) <= 50)%nat /\
  noConsecutiveDuplicates (serviceLog commands w).
Proof.
  unfold serviceLog. revert w.
  induction commands as [|c r IH]; intros w L N; [now split|].
  simpl. apply IH; rewrite addToHistory_appendBounded.
  - apply appendBounded_length; [lia | assumption].
  - apply appendBounded_noConsecutiveDuplicates; [lia | exact N].
Qed.

Lemma trackerLog_invariant commands st :
  (List.length (CommandHistoryService.history st) <= 50)%nat ->
  noConsecutiveDuplicates (CommandHistoryService.history st) ->
  (List.length (trackerLog commands st) <= 50)%nat /\
  noConsecutiveDuplicates (trackerLog commands st).
Proof.
  unfold trackerLog. revert st.
  induction commands as [|c r IH]; intros st L N; [now split|].
  simpl. apply IH; rewrite addCommand_history;
    destruct (trim c =? EmptyString); try assumption.
  - apply appendBounded_length; [lia | assumption].
  - apply appendBounded_noConsecutiveDuplicates; [lia | exact N].
Qed.

(** C4. After any sequence of appends, from the empty log or from any log
    within the bound and without equal neighbours, the history holds at
    most 50 entries and no two equal neighbours; appending the command
    that is the newest entry changes nothing; appending another command to
    a full log drops the oldest entry and adds the command at the end.
    This holds for the log of the command service and for the log of the
    history service, which stores the trimmed command: what is said of one
    append to it is said for a command in ASCII text. *)
Theorem history_bounded_and_deduplicated :
  (forall commands w,
      (List.length (CommandService.commandHistory w) <= 50)%nat ->
      noConsecutiveDuplicates (CommandService.commandHistory w) ->
      (List.length (serviceLog commands w) <= 50)%nat /\
      noConsecutiveDuplicates (serviceLog commands w)) /\
  (forall commands st,
      (List.length (CommandHistoryService.history st) <= 50)%nat ->
      noConsecutiveDuplicates (CommandHistoryService.history st) ->
      (List.length (trackerLog commands st) <= 50)%nat /\
      noConsecutiveDuplicates (trackerLog commands st)) /\
  (forall commands,
      (List.length (serviceLog commands CommandService.initial) <= 50)%nat /\
      noConsecutiveDuplicates (serviceLog commands CommandService.initial) /\
      (List.length (trackerLog commands CommandHistoryService.initial) <= 50)%nat /\
      noConsecutiveDuplicates (trackerLog commands CommandHistoryService.initial)) /\
  (forall command w,
      lastElement (CommandService.commandHistory w) = Some command ->
      CommandService.addToHistory command w = w) /\
  (forall command st,
      asciiText command ->
      lastElement (CommandHistoryService.history st) = Some (trim command) ->
      CommandHistoryService.history (CommandHistoryService.addCommand command st)
      = CommandHistoryService.history st) /\
  (forall command w,
      CommandService.commandHistory
        (CommandService.addToHistory command (CommandService.addToHistory command w))
      = CommandService.commandHistory (CommandService.addToHistory command w)) /\
  (forall command st,
      CommandHistoryService.history
        (CommandHistoryService.addCommand command
           (CommandHistoryService.addCommand command st))
      = CommandHistoryService.history (CommandHistoryService.addCommand command st)) /\
  (forall command oldest rest w,
      CommandService.commandHistory w = oldest :: rest ->
      List.length (oldest :: rest) = 50%nat ->
      lastElement (oldest :: rest) <> Some command ->
      CommandService.commandHistory (CommandService.addToHistory command w)
      = (rest ++ [command])%list) /\
  (forall command oldest rest st,
      asciiText command ->
      CommandHistoryService.history st = oldest :: rest ->
      List.length (oldest :: rest) = 50%nat ->
      trim command <> EmptyString ->
      lastElement (oldest :: rest) <> Some (trim command) ->
      CommandHistoryService.history (CommandHistoryService.addCommand command st)
      = (rest ++ [trim command])%list).
Proof.
  split; [exact serviceLog_invariant|].
  split; [exact trackerLog_invariant|].
  split; [|split; [|split; [|split; [|split; [|split]]]]].
  - intros commands.
    destruct (serviceLog_invariant commands CommandService.initial)
      as [A B]; [simpl; lia | exact I |].
    destruct (trackerLog_invariant commands CommandHistoryService.initial)
      as [C D]; [simpl; lia | exact I |].
    now repeat split.
  - intros command w E. unfold CommandService.addToHistory, differs.
    now rewrite E, String.eqb_refl.
  - intros command st _ E. rewrite addCommand_history.
    destruct (trim command =? EmptyString); [reflexivity|].
    now apply appendBounded_duplicate.
  - intros command w. rewrite !addToHistory_appendBounded.
    apply appendBounded_duplicate, appendBounded_newest. lia.
  - intros command st. rewrite !addCommand_history.
    destruct (trim command =? EmptyString) eqn:E; [reflexivity|].
    apply appendBounded_duplicate, appendBounded_newest. lia.
  - intros command oldest rest w E L Hd.
    rewrite addToHistory_appendBounded, E, appendBounded_push by exact Hd.
    rewrite length_app, L. reflexivity.
  - intros command oldest rest st _ E L Ht Hd.
    rewrite addCommand_history, E.
    apply String.eqb_neq in Ht. rewrite Ht.
    rewrite appendBounded_push by exact Hd.
    rewrite length_app, L. reflexivity.
Qed.

(** ** The navigation cursor (C5) *)

Section Cursor.

Import CommandHistoryService.

Variable log : list string.
Variable temp : string.

Local Abbreviation position := (cursorAt log temp).

Lemma read_position c :
  read log (Z.of_nat c)
  = match nth_error log c with Some e => Entry e | None => Undefined end.
Proof.
  unfold read, at_. destruct (Z.ltb_spec (Z.of_nat c) 0); [lia|].
  now rewrite Nat2Z.id.
Qed.

Lemma log_not_empty c e : nth_error log c = Some e -> (c < List.length log)%nat.
Proof. intros H. apply nth_error_Some. congruence. Qed.

Lemma previous_step c e :
  nth_error log c = Some e ->
  getPreviousCommand (position (S c)) = (Entry e, position c).
Proof.
  intros H. pose proof (log_not_empty c e H) as L.
  unfold getPreviousCommand, cursorAt. cbn [history currentIndex tempCommand].
  destruct (Nat.eqb_spec (List.length log) 0); [lia|].
  destruct (Z.gtb_spec (Z.of_nat (S c)) 0); [|lia].
  replace (Z.of_nat (S c) - 1)%Z with (Z.of_nat c) by lia.
  now rewrite read_position, H.
Qed.

Lemma previous_at_earliest : getPreviousCommand (position 0) = (Null, position 0).
Proof.
  unfold getPreviousCommand, cursorAt. simpl.
  now destruct (List.length log =? 0)%nat.
Qed.

Lemma next_step c e :
  nth_error log (S c) = Some e ->
  getNextCommand (position c) = (Entry e, position (S c)).
Proof.
  intros H. pose proof (log_not_empty (S c) e H) as L.
  unfold getNextCommand, cursorAt. cbn [history currentIndex tempCommand].
  destruct (Z.eqb_spec (Z.of_nat (List.length log)) 0); [lia|].
  destruct (Z.ltb_spec (Z.of_nat c) (Z.of_nat (List.length log) - 1)); [|lia].
  replace (Z.of_nat c + 1)%Z with (Z.of_nat (S c)) by lia.
  now rewrite read_position, H.
Qed.

Lemma next_to_live c :
  S c = List.length log ->
  getNextCommand (position c) = (Entry temp, position (S c)).
Proof.
  intros L. unfold getNextCommand, cursorAt. cbn [history currentIndex tempCommand].
  destruct (Z.eqb_spec (Z.of_nat (List.length log)) 0); [lia|].
  destruct (Z.ltb_spec (Z.of_nat c) (Z.of_nat (List.length log) - 1)); [lia|].
  destruct (Z.eqb_spec (Z.of_nat c) (Z.of_nat (List.length log) - 1)); [|lia].
  now rewrite L.
Qed.

Lemma next_at_live :
  getNextCommand (position (List.length log)) = (Null, position (List.length log)).
Proof.
  unfold getNextCommand, cursorAt. cbn [history currentIndex tempCommand].
  destruct (Z.eqb_spec (Z.of_nat (List.length log)) 0); [reflexivity|].
  destruct (Z.ltb_spec (Z.of_nat (List.length log))
              (Z.of_nat (List.length log) - 1)); [lia|].
  destruct (Z.eqb_spec (Z.of_nat (List.length log))
              (Z.of_nat (List.length log) - 1)); [lia | reflexivity].
Qed.

Lemma repeatedly_append step a b st :
  repeatedly step (a + b) st
  = let (r1, s1) := repeatedly step a st in
    let (r2, s2) := repeatedly step b s1 in
    ((r1 ++ r2)%list, s2).
Proof.
  revert st. induction a as [|a IH]; intros st; simpl.
  - now destruct (repeatedly step b st).
  - destruct (step st) as [r s1]. rewrite IH.
    destruct (repeatedly step a s1) as [r1 s2].
    now destruct (repeatedly step b s2).
Qed.

Lemma firstn_snoc {A} (l : list A) c e :
  nth_error l c = Some e -> firstn (S c) l = (firstn c l ++ [e])%list.
Proof.
  revert c. induction l as [|x r IH]; intros [|c] H; try discriminate.
  - simpl in *. now injection H as ->.
  - simpl in H. change (firstn (S (S c)) (x :: r)) with (x :: firstn (S c) r).
    now rewrite (IH c H).
Qed.

Lemma previous_repeated k :
  forall c, (k <= c <= List.length log)%nat ->
    repeatedly getPreviousCommand k (position c)
    = (List.map Entry (firstn k (rev (firstn c log))), position (c - k)).
Proof.
  induction k as [|k IH]; intros c H.
  - simpl. now rewrite Nat.sub_0_r.
  - destruct c as [|c]; [lia|].
    destruct (nth_error log c) as [e|] eqn:E;
      [|apply nth_error_None in E; lia].
    cbn [repeatedly]. rewrite (previous_step c e E), (IH c) by lia.
    rewrite (firstn_snoc log c e E), rev_unit. reflexivity.
Qed.

Lemma previous_exhausted extra :
  repeatedly getPreviousCommand extra (position 0) = (repeat Null extra, position 0).
Proof.
  induction extra as [|k IH]; [reflexivity|].
  cbn [repeatedly]. now rewrite previous_at_earliest, IH.
Qed.

Lemma next_repeated k :
  forall c, (c + k < List.length log)%nat ->
    repeatedly getNextCommand k (position c)
    = (List.map Entry (firstn k (skipn (S c) log)), position (c + k)).
Proof.
  induction k as [|k IH]; intros c H.
  - simpl. now rewrite Nat.add_0_r.
  - destruct (nth_error log (S c)) as [e|] eqn:E;
      [|apply nth_error_None in E; lia].
    cbn [repeatedly]. rewrite (next_step c e E), (IH (S c)) by lia.
    replace (S c + k)%nat with (c + S k)%nat by lia.
    f_equal.
    assert (X : skipn (S c) log = e :: skipn (S (S c)) log).
    { clear - E. revert E. generalize (S c) as i. intros i. revert log.
      induction i as [|i IHi]; intros [|x r] E; try discriminate.
      - simpl in *. now injection E as ->.
      - simpl in E. change (skipn (S i) (x :: r)) with (skipn i r).
        change (skipn (S (S i)) (x :: r)) with (skipn (S i) r).
        now apply IHi. }
    rewrite X. reflexivity.
Qed.

End Cursor.

Lemma addCommand_live command st :
  trim command <> EmptyString ->
  let st1 := CommandHistoryService.addCommand command st in
  st1 = cursorAt (CommandHistoryService.history st1) EmptyString
                 (List.length (CommandHistoryService.history st1)).
Proof.
  intros H. apply String.eqb_neq in H.
  unfold CommandHistoryService.addCommand. rewrite H.
  destruct (differs _ _); reflexivity.
Qed.

(** C5. Let the cursor stand one past the last entry (where [addCommand]
    leaves it, for a non-blank command in ASCII text).  Repeated calls of
    [getPreviousCommand] return the entries newest first, each call moving
    the cursor down by one, and return null with the cursor left at 0 once
    the earliest entry has been returned.  [getNextCommand] moves the
    cursor up by one while it is below the length: it returns the entry at
    the new position, and when the new position is one past the last entry
    it returns the saved input; with the cursor already there it returns
    null.  From the earliest entry, repeated calls return the later
    entries in order and then the saved input. *)
Theorem history_cursor_navigation :
  forall (log : list string) (temp : string),
  (forall k, (k <= List.length log)%nat ->
     CommandHistoryService.repeatedly CommandHistoryService.getPreviousCommand k
       (cursorAt log temp (List.length log))
     = (List.map CommandHistoryService.Entry (firstn k (rev log)),
        cursorAt log temp (List.length log - k))) /\
  (forall extra,
     CommandHistoryService.repeatedly CommandHistoryService.getPreviousCommand
       (List.length log + extra) (cursorAt log temp (List.length log))
     = ((List.map CommandHistoryService.Entry (rev log)
         ++ repeat CommandHistoryService.Null extra)%list,
        cursorAt log temp 0)) /\
  (forall c e, nth_error log c = Some e ->
     CommandHistoryService.getPreviousCommand (cursorAt log temp (S c))
     = (CommandHistoryService.Entry e, cursorAt log temp c)) /\
  CommandHistoryService.getPreviousCommand (cursorAt log temp 0)
  = (CommandHistoryService.Null, cursorAt log temp 0) /\
  (forall c e, nth_error log (S c) = Some e ->
     CommandHistoryService.getNextCommand (cursorAt log temp c)
     = (CommandHistoryService.Entry e, cursorAt log temp (S c))) /\
  (forall c, S c = List.length log ->
     CommandHistoryService.getNextCommand (cursorAt log temp c)
     = (CommandHistoryService.Entry temp, cursorAt log temp (List.length log))) /\
  CommandHistoryService.getNextCommand (cursorAt log temp (List.length log))
  = (CommandHistoryService.Null, cursorAt log temp (List.length log)) /\
  ((0 < List.length log)%nat ->
     CommandHistoryService.repeatedly CommandHistoryService.getNextCommand
       (List.length log) (cursorAt log temp 0)
     = ((List.map CommandHistoryService.Entry (skipn 1 log)
         ++ [CommandHistoryService.Entry temp])%list,
        cursorAt log temp (List.length log))) /\
  (forall command st,
     asciiText command ->
     trim command <> EmptyString ->
     CommandHistoryService.addCommand command st
     = cursorAt
         (CommandHistoryService.history (CommandHistoryService.addCommand command st))
         EmptyString
         (List.length
            (CommandHistoryService.history
               (CommandHistoryService.addCommand command st)))).
Proof.
  intros log temp.
  split; [|split; [|split; [|split; [|split; [|split; [|split; [|split]]]]]]].
  - intros k H. rewrite previous_repeated by lia. now rewrite firstn_all.
  - intros extra. rewrite repeatedly_append, previous_repeated by lia.
    rewrite Nat.sub_diag, previous_exhausted, firstn_all.
    rewrite <- (length_rev log) at 1. now rewrite firstn_all.
  - apply previous_step.
  - apply previous_at_earliest.
  - apply next_step.
  - intros c H. rewrite <- H. now apply next_to_live.
  - apply next_at_live.
  - intros H. destruct (List.length log) as [|m] eqn:L; [lia|].
    replace (S m) with (m + 1)%nat by lia.
    rewrite repeatedly_append, next_repeated by lia.
    cbn [CommandHistoryService.repeatedly Nat.add].
    rewrite next_to_live by lia.
    rewrite firstn_all2 by (rewrite length_skipn; lia).
    now replace (m + 1)%nat with (S m) by lia.
  - intros command st _ H. now apply addCommand_live.
Qed.

(** ** The skills resolver (C6) *)

Section Skills.

Import CommandService.

Context {S : Type}.
Variable sessionService : SessionApi S.
Variable data : SkillsData.
Variable assetBranch : string -> Observable OutputContent.
Variable documentThrows : bool.

Local Abbreviation resolve :=
  (generateResponseFromAssets sessionService (Emits data) assetBranch documentThrows).

(** An argument that names an own category yields exactly its entries. *)
Lemma skills_category_selected category rest skills s :
  category <> EmptyString ->
  ownProperty data category = Some skills ->
  resolve "skills" (category :: rest) s = (Emits (listOf skills), s).
Proof.
  intros Hne Hown. unfold generateResponseFromAssets. simpl.
  unfold skillsResponse, getProperty. rewrite Hown.
  destruct category; [congruence | reflexivity].
Qed.

(** No argument, or one that names neither an own category nor a member
    of [Object.prototype], yields the display of all categories. *)
Lemma skills_all_categories args s :
  (args = []
   \/ exists category rest,
       args = category :: rest /\
       ownProperty data category = None /\
       ~ In category objectPrototypeMembers) ->
  resolve "skills" args s = (Emits (allSkillsResponse data), s).
Proof.
  intros [-> | (category & rest & -> & Hown & Hproto)]; [reflexivity|].
  unfold generateResponseFromAssets. simpl.
  unfold skillsResponse, getProperty. rewrite Hown.
  apply includes_not_In in Hproto. rewrite Hproto.
  now destruct category.
Qed.

(** C6, at the input where the code departs from it.  For a skills asset
    without an own category [constructor], the argument [constructor] is
    no known category, yet the resolver does not fall through to the
    display of all categories: it answers with a list-kind content whose
    payload is the member inherited from [Object.prototype]. *)
Theorem skills_inherited_member_selected rest s :
  ownProperty data "constructor" = None ->
  resolve "skills" ("constructor" :: rest) s
  = (Emits {| content := PInherited "constructor"; type := list_;
              formatting := plain "blue"; actions := [] |}, s)
  /\ resolve "skills" ("constructor" :: rest) s
     <> (Emits (allSkillsResponse data), s).
Proof.
  intros Hown.
  assert (E : resolve "skills" ("constructor" :: rest) s
              = (Emits {| content := PInherited "constructor"; type := list_;
                          formatting := plain "blue"; actions := [] |}, s)).
  { unfold generateResponseFromAssets. simpl.
    unfold skillsResponse, getProperty. now rewrite Hown. }
  split; [exact E|]. rewrite E. unfold allSkillsResponse. intros X. discriminate X.
Qed.

End Skills.

(** Submitting [skills frontend] when idle: the pipeline delivers a list
    whose payload is the frontend entries; submitting [skills constructor]
    delivers the inherited member. *)
Example submit_skills_frontend :
  CommandService.executeCommand SessionService.api (Emits sampleSkills)
    noAssets false "skills frontend" "session"
    CommandService.initial SessionService.initial
  = (CommandService.InFlight "skills frontend"
       (Emits {| success := true;
                 output := listOf ["Angular"; "TypeScript"];
                 nextSuggestions := ["experience"; "education"; "highlights"; "tryme"] |}),
     CommandService.currentCommandNext (Some "skills frontend")
       (CommandService.setExecutionState PROCESSING CommandService.initial),
     SessionService.initial).
Proof. reflexivity. Qed.

Example submit_skills_constructor :
  CommandService.executeCommand SessionService.api (Emits sampleSkills)
    noAssets false "skills constructor" "session"
    CommandService.initial SessionService.initial
  = (CommandService.InFlight "skills constructor"
       (Emits {| success := true;
                 output := {| content := PInherited "constructor"; type := list_;
                              formatting := plain "blue"; actions := [] |};
                 nextSuggestions := ["experience"; "education"; "highlights"; "tryme"] |}),
     CommandService.currentCommandNext (Some "skills constructor")
       (CommandService.setExecutionState PROCESSING CommandService.initial),
     SessionService.initial).
Proof. reflexivity. Qed.

Example submit_skills_unknown :
  CommandService.generateResponseFromAssets SessionService.api (Emits sampleSkills)
    noAssets false "skills" ["databases"] SessionService.initial
  = (Emits (CommandService.allSkillsResponse sampleSkills), SessionService.initial).
Proof. reflexivity. Qed.

Lemma skills_inherited_member_selected_witness :
  CommandService.generateResponseFromAssets SessionService.api (Emits sampleSkills)
    noAssets false "skills" ["constructor"] SessionService.initial
  = (Emits {| content := PInherited "constructor"; type := list_;
              formatting := plain "blue"; actions := [] |}, SessionService.initial)
  /\ CommandService.generateResponseFromAssets SessionService.api (Emits sampleSkills)
       noAssets false "skills" ["constructor"] SessionService.initial
     <> (Emits (CommandService.allSkillsResponse sampleSkills), SessionService.initial).
Proof.
  apply (skills_inherited_member_selected SessionService.api sampleSkills).
  reflexivity.
Defined.

(** ** The theme resolver (C7) *)

Lemma split_toLowerCase s :
  split space (toLowerCase s) = List.map toLowerCase (split space s).
Proof.
  induction s as [|c r IH]; [reflexivity|].
  simpl. rewrite lowerChar_space, IH.
  destruct (Ascii.eqb c space) eqn:E.
  - apply Ascii.eqb_eq in E. subst c. reflexivity.
  - destruct (split space r); reflexivity.
Qed.

(** The tokens of a normalized command are in lower case. *)
Lemma normalized_tokens raw token :
  In token (split space (toLowerCase (trim raw))) -> toLowerCase token = token.
Proof.
  rewrite split_toLowerCase, in_map_iff. intros (t & <- & _).
  apply toLowerCase_idempotent.
Qed.

Section Theme.

Import CommandService.

Context {S : Type}.
Variable sessionService : SessionApi S.
Variable skillsJson : Observable SkillsData.
Variable assetBranch : string -> Observable OutputContent.
Variable documentThrows : bool.

Lemma themeOfName_exact themeName :
  themeOfName themeName <> None <-> themeName = "dark" \/ themeName = "light".
Proof.
  unfold themeOfName.
  destruct (String.eqb_spec themeName "dark") as [->|Hd].
  - split; [now left | discriminate].
  - destruct (String.eqb_spec themeName "light") as [->|Hl].
    + split; [now right | discriminate].
    + split; [congruence | intros [?|?]; congruence].
Qed.

Lemma executeThemeCommand_invalid arg rest s :
  toLowerCase arg <> "dark" ->
  toLowerCase arg <> "light" ->
  executeThemeCommand sessionService (arg :: rest) s
  = (Emits (invalidTheme (toLowerCase arg)), s).
Proof.
  intros Hd Hl. unfold executeThemeCommand, themeOfName.
  apply String.eqb_neq in Hd, Hl. now rewrite Hd, Hl.
Qed.

Lemma executeOfflineCommand_invalid_theme raw arg rest s :
  split space (toLowerCase (trim raw)) = "theme" :: arg :: rest ->
  arg <> "dark" -> arg <> "light" ->
  executeOfflineCommand sessionService skillsJson assetBranch documentThrows
    (toLowerCase (trim raw)) s
  = (Emits {| success := true;
              output := invalidTheme arg;
              nextSuggestions := ["help"; "summary"; "aboutme"; "skills"] |}, s).
Proof.
  intros Hsplit Hd Hl.
  assert (Hlow : toLowerCase arg = arg).
  { apply (normalized_tokens raw). rewrite Hsplit. simpl. tauto. }
  unfold executeOfflineCommand, firstToken. rewrite Hsplit. cbn [tl].
  change (generateResponseFromAssets sessionService skillsJson assetBranch documentThrows
            "theme" (arg :: rest) s)
    with (executeThemeCommand sessionService (arg :: rest) s).
  rewrite executeThemeCommand_invalid by (rewrite Hlow; assumption).
  now rewrite Hlow.
Qed.

(** C7. The theme command checks its argument against exactly the names
    dark and light.  For a submission in ASCII text whose normalized text
    is [theme] followed by any other argument, the resolver answers with
    a red text content and leaves the collaborator state as it was,
    whatever [changeTheme] would do: it is not called.  One of the two
    names is handed to [changeTheme].  Without argument the answer lists
    the themes the collaborator offers. *)
Theorem theme_argument_checked :
  (forall themeName,
      themeOfName themeName <> None <-> themeName = "dark" \/ themeName = "light") /\
  (forall raw sessionId w arg rest s,
      asciiText raw ->
      isProcessing w = false ->
      split space (toLowerCase (trim raw)) = "theme" :: arg :: rest ->
      arg <> "dark" -> arg <> "light" ->
      executeCommand sessionService skillsJson assetBranch documentThrows raw sessionId w s
      = (InFlight (toLowerCase (trim raw))
           (Emits {| success := true;
                     output := invalidTheme arg;
                     nextSuggestions := ["help"; "summary"; "aboutme"; "skills"] |}),
         currentCommandNext (Some (toLowerCase (trim raw)))
           (setExecutionState PROCESSING w),
         s)) /\
  (forall arg rest s,
      asciiText arg ->
      toLowerCase arg <> "dark" -> toLowerCase arg <> "light" ->
      executeThemeCommand sessionService (arg :: rest) s
      = (Emits (invalidTheme (toLowerCase arg)), s)) /\
  (forall arg rest s theme,
      themeOfName (toLowerCase arg) = Some theme ->
      snd (executeThemeCommand sessionService (arg :: rest) s)
      = snd (changeTheme sessionService theme s)) /\
  (forall s,
      executeThemeCommand sessionService [] s
      = (Emits (themeListing (availableThemes sessionService s)), s)).
Proof.
  split; [exact themeOfName_exact|].
  split; [|split; [intros arg rest s _; apply executeThemeCommand_invalid|split]].
  - intros raw sessionId w arg rest s _ Hw Hsplit Hd Hl.
    unfold executeCommand. rewrite Hw.
    assert (V : isValidCommand (toLowerCase (trim raw)) = true)
      by (unfold isValidCommand, firstToken; now rewrite Hsplit).
    rewrite V. cbn [negb].
    now rewrite (executeOfflineCommand_invalid_theme raw arg rest s Hsplit Hd Hl).
  - intros arg rest s theme H. unfold executeThemeCommand. rewrite H.
    now destruct (changeTheme sessionService theme s).
  - reflexivity.
Qed.

End Theme.

(** Submitting [theme neon] when idle, with the session service as
    collaborator: a red text content, and the session as it was. *)
Example submit_theme_neon :
  CommandService.executeCommand SessionService.api (Emits sampleSkills)
    noAssets false "theme neon" "session"
    CommandService.initial SessionService.initial
  = (CommandService.InFlight "theme neon"
       (Emits {| success := true;
                 output := invalidTheme "neon";
                 nextSuggestions := ["help"; "summary"; "aboutme"; "skills"] |}),
     CommandService.currentCommandNext (Some "theme neon")
       (CommandService.setExecutionState PROCESSING CommandService.initial),
     SessionService.initial).
Proof. reflexivity. Qed.

Example theme_listing_of_session :
  CommandService.executeThemeCommand SessionService.api [] SessionService.initial
  = (Emits {| content :=
                PText ("Available themes:" ++ CommandService.nl ++ CommandService.nl
                       ++ "‚Ä¢ dark - Dark Terminal" ++ CommandService.nl
                       ++ "‚Ä¢ light - Light Terminal" ++ CommandService.nl
                       ++ "‚Ä¢ matrix - Matrix Green" ++ CommandService.nl
                       ++ "‚Ä¢ retro - Retro Amber"
                       ++ CommandService.nl ++ CommandService.nl
                       ++ "Usage: theme <name>");
              type := text; formatting := plain "blue"; actions := [] |},
     SessionService.initial).
Proof. reflexivity. Qed.

Example submit_theme_light :
  snd (CommandService.executeThemeCommand SessionService.api ["light"]
         SessionService.initial)
  = {| SessionService.themeSubject := light;
       SessionService.preferencesTheme := light;
       SessionService.documentTheme := light |}.
Proof. reflexivity. Qed.

Lemma theme_argument_checked_witness :
  CommandService.executeCommand countingSession (Emits sampleSkills)
    noAssets false
    " Theme NEON " "session" CommandService.initial 0%nat
  = (CommandService.InFlight "theme neon"
       (Emits {| success := true;
                 output := invalidTheme "neon";
                 nextSuggestions := ["help"; "summary"; "aboutme"; "skills"] |}),
     CommandService.currentCommandNext (Some "theme neon")
       (CommandService.setExecutionState PROCESSING CommandService.initial),
     0%nat)
  /\ CommandService.executeThemeCommand countingSession ["Neon"] 0%nat
     = (Emits (invalidTheme "neon"), 0%nat)
  /\ snd (CommandService.executeThemeCommand countingSession ["dark"] 0%nat) = 1%nat.
Proof.
  destruct (theme_argument_checked countingSession (Emits sampleSkills) noAssets false)
    as (_ & H2 & H3 & H4 & _).
  split; [|split].
  - apply (H2 " Theme NEON " "session" CommandService.initial "neon" []);
      [reflexivity | reflexivity | reflexivity | discriminate | discriminate].
  - apply (H3 "Neon" []); [reflexivity | discriminate | discriminate].
  - apply (H4 "dark" [] 0%nat dark). reflexivity.
Defined.

(** ** The text formatter (C9) *)

Section Formatter.

Import OutputFormatterService.

Lemma append_assoc a b c : (a ++ b) ++ c = a ++ (b ++ c).
Proof. induction a as [|x r IH]; simpl; [reflexivity | now rewrite IH]. Qed.

Lemma drop_append d t : drop (String.length d) (d ++ t) = t.
Proof. induction d as [|x r IH]; simpl; [reflexivity | exact IH]. Qed.

Lemma countChar_append c a b : countChar c (a ++ b) = (countChar c a + countChar c b)%nat.
Proof. induction a as [|x r IH]; simpl; [reflexivity | rewrite IH; lia]. Qed.

Lemma countChar_occurs c s : (0 < countChar c s)%nat <-> occurs c s.
Proof.
  induction s as [|d r IH]; simpl; [split; [lia | tauto]|].
  destruct (Ascii.eqb_spec d c) as [->|Hne].
  - split; [now left | lia].
  - rewrite <- IH. simpl. split; [now right | intros [?|?]; [congruence | assumption]].
Qed.

Lemma prefix_drop close s :
  prefix close s = true -> s = close ++ drop (String.length close) s.
Proof. intros P. apply prefix_append in P as [t ->]. now rewrite drop_append. Qed.

Lemma lazyUntil_unfold close s :
  lazyUntil close s
  = if prefix close s then Some (EmptyString, drop (String.length close) s)
    else match s with
         | EmptyString => None
         | String c r =>
             if isLineTerminator c then None
             else match lazyUntil close r with
                  | Some (inner, rest) => Some (String c inner, rest)
                  | None => None
                  end
         end.
Proof. destruct s; reflexivity. Qed.

Lemma lazyUntil_sound close s inner rest :
  lazyUntil close s = Some (inner, rest) ->
  s = inner ++ close ++ rest /\
  forall c, occurs c inner -> isLineTerminator c = false.
Proof.
  revert inner rest. induction s as [|x r IH]; intros inner rest;
    rewrite lazyUntil_unfold.
  - destruct (prefix close EmptyString) eqn:P; [|discriminate].
    intros E. injection E as <- <-.
    split; [|intros c []]. now apply prefix_drop.
  - destruct (prefix close (String x r)) eqn:P.
    + intros E. injection E as <- <-.
      split; [|intros c []]. now apply prefix_drop.
    + destruct (isLineTerminator x) eqn:T; [discriminate|].
      destruct (lazyUntil close r) as [[i t]|] eqn:L; [|discriminate].
      intros E. injection E as <- <-. destruct (IH i t eq_refl) as [-> Hi].
      split; [reflexivity|]. intros c [<-|Hc]; [exact T | now apply Hi].
Qed.

Lemma matchAt_hasMarker d s inner : matchAt d s = Some inner -> hasMarker d s.
Proof.
  unfold matchAt. destruct (prefix d s) eqn:P; [|discriminate].
  apply prefix_append in P as [t ->]. rewrite drop_append.
  destruct (lazyUntil d t) as [[i rest]|] eqn:L; [|discriminate].
  intros _. destruct (lazyUntil_sound d t i rest L) as [-> Hi].
  exists EmptyString, i, rest. now split.
Qed.

Lemma lazyUntil_complete close inner post :
  (forall c, occurs c inner -> isLineTerminator c = false) ->
  lazyUntil close (inner ++ close ++ post) <> None.
Proof.
  induction inner as [|x r IH]; intros H; rewrite lazyUntil_unfold.
  - simpl. replace (prefix close (close ++ post)) with true; [discriminate|].
    symmetry. apply prefix_append. now exists post.
  - destruct (prefix close ((String x r) ++ close ++ post)); [discriminate|].
    simpl. rewrite (H x) by (simpl; now left).
    destruct (lazyUntil close (r ++ close ++ post)) as [[i t]|];
      [discriminate|].
    exfalso. apply IH; [|reflexivity]. intros c Hc. apply H. simpl. now right.
Qed.

(** The markers of the specification are the matches of the regular
    expression: [s] holds the marker [d] exactly when the expression
    matches at some position of [s]. *)
Lemma hasMarker_matchAt d s :
  hasMarker d s <-> exists pre t, s = pre ++ t /\ matchAt d t <> None.
Proof.
  split.
  - intros (pre & inner & post & -> & H).
    exists pre, (d ++ inner ++ d ++ post). split; [reflexivity|].
    unfold matchAt. replace (prefix d (d ++ inner ++ d ++ post)) with true
      by (symmetry; apply prefix_append; now eexists).
    rewrite drop_append.
    destruct (lazyUntil d (inner ++ d ++ post)) eqn:L; [discriminate|].
    now apply lazyUntil_complete in L.
  - intros (pre & t & -> & M).
    destruct (matchAt d t) as [inner|] eqn:E; [|congruence].
    apply matchAt_hasMarker in E as (p & i & q & -> & H).
    exists (pre ++ p), i, q. split; [|exact H]. now rewrite append_assoc.
Qed.

Lemma replaceScan_skip d op cl a rest :
  replaceScan (String.length a) d op cl (a ++ rest) = replaceScan 0 d op cl rest.
Proof. induction a as [|x r IH]; simpl; [now destruct rest | exact IH]. Qed.

Lemma length_append a b :
  String.length (a ++ b) = (String.length a + String.length b)%nat.
Proof. induction a as [|x r IH]; simpl; [reflexivity | now rewrite IH]. Qed.

(** A match at the head of the string is replaced and the scan resumes
    right after it. *)
Lemma replaceDelimited_match x d op cl s inner :
  matchAt (String x d) s = Some inner ->
  exists rest,
    s = String x d ++ inner ++ String x d ++ rest /\
    replaceDelimited (String x d) op cl s
    = op ++ inner ++ cl ++ replaceDelimited (String x d) op cl rest.
Proof.
  intros M. pose proof M as M0. unfold matchAt in M.
  destruct (prefix (String x d) s) eqn:P; [|discriminate].
  apply prefix_append in P as [t ->]. rewrite drop_append in M.
  destruct (lazyUntil (String x d) t) as [[i rest]|] eqn:L; [|discriminate].
  simpl in M. injection M as <-.
  destruct (lazyUntil_sound _ _ _ _ L) as [-> _].
  exists rest. split; [reflexivity|].
  unfold replaceDelimited. change (String x d ++ i ++ String x d ++ rest)
    with (String x (d ++ i ++ String x d ++ rest)) in *.
  cbn [replaceScan]. rewrite M0. do 3 f_equal.
  replace (d ++ i ++ String x d ++ rest) with ((d ++ i ++ String x d) ++ rest)
    by now rewrite !append_assoc.
  replace (String.length (String x d) + String.length i
           + String.length (String x d) - 1)%nat
    with (String.length (d ++ i ++ String x d))
    by (rewrite !length_append; simpl; lia).
  apply replaceScan_skip.
Qed.

Lemma hasMarker_tail d c r : hasMarker d r -> hasMarker d (String c r).
Proof.
  intros (pre & inner & post & -> & H).
  exists (String c pre), inner, post. now split.
Qed.

Lemma replaceDelimited_unmarked d op cl s :
  ~ hasMarker d s -> replaceDelimited d op cl s = s.
Proof.
  unfold replaceDelimited. induction s as [|c r IH]; intros H; [reflexivity|].
  cbn [replaceScan]. destruct (matchAt d (String c r)) as [inner|] eqn:M.
  - exfalso. apply H. now apply matchAt_hasMarker in M.
  - rewrite IH; [reflexivity|]. intros X. apply H. now apply hasMarker_tail.
Qed.

Lemma replaceNewlines_unmarked s : ~ occurs newline s -> replaceNewlines s = s.
Proof.
  induction s as [|c r IH]; intros H; [reflexivity|].
  simpl in *. destruct (Ascii.eqb_spec c newline) as [->|Hne]; [tauto|].
  rewrite IH; tauto.
Qed.

(** A delimiter that occurs twice brings its first character twice. *)
Lemma hasMarker_count c d s :
  hasMarker (String c d) s -> (2 <= countChar c s)%nat.
Proof.
  intros (pre & inner & post & -> & _).
  rewrite !countChar_append. simpl. rewrite Ascii.eqb_refl. lia.
Qed.

(** A string with at most one star, at most one backtick and no newline
    holds no marker. *)
Lemma markerFree_by_count s :
  (countChar "*" s <= 1)%nat ->
  (countChar "`" s <= 1)%nat ->
  countChar newline s = 0%nat ->
  markerFree s.
Proof.
  intros Hs Hb Hn. repeat split.
  - intros H. apply hasMarker_count in H. lia.
  - intros H. apply hasMarker_count in H. lia.
  - intros H. apply hasMarker_count in H. lia.
  - intros H. apply countChar_occurs in H. lia.
Qed.

(** C9. On a string that holds no bold, italic or inline-code marker and
    no newline, the text transformation is the identity: the text read
    back from the formatted content is the string itself, and applying the
    transformation again changes nothing. *)
Theorem text_formatter_identity_on_unmarked content formatting :
  markerFree content ->
  processTextContent content = content /\
  displayText (formatText content formatting) = Some content /\
  processTextContent (processTextContent content) = processTextContent content /\
  formatText (processTextContent content) formatting = formatText content formatting.
Proof.
  intros (Hbold & Hitalic & Hcode & Hnl).
  assert (E : processTextContent content = content).
  { unfold processTextContent.
    rewrite (replaceDelimited_unmarked "**") by exact Hbold.
    rewrite (replaceDelimited_unmarked "*") by exact Hitalic.
    rewrite (replaceDelimited_unmarked "`") by exact Hcode.
    now apply replaceNewlines_unmarked. }
  unfold displayText, formatText. simpl. rewrite !E. now repeat split.
Qed.

End Formatter.

Lemma text_formatter_identity_on_unmarked_witness :
  markerFree "2 * 3 = 6, said `Joseph" /\
  OutputFormatterService.processTextContent "2 * 3 = 6, said `Joseph"
  = "2 * 3 = 6, said `Joseph".
Proof.
  assert (H : markerFree "2 * 3 = 6, said `Joseph")
    by (apply markerFree_by_count; vm_compute; lia).
  split; [exact H|].
  exact (proj1 (text_formatter_identity_on_unmarked
                  "2 * 3 = 6, said `Joseph" None H)).
Defined.

(** ** The properties at concrete inputs *)

Lemma single_flight_guard_witness :
  CommandService.executeCommand SessionService.api (Emits sampleSkills)
    noAssets false
    "theme light" "session" busy SessionService.initial
  = (CommandService.Rejected concurrentError, busy, SessionService.initial).
Proof.
  apply (single_flight_guard SessionService.api (Emits sampleSkills)
    noAssets false
           "theme light" "session" busy SessionService.initial).
  reflexivity.
Defined.

Lemma finalize_runs_in_order_witness :
  "summary" = toLowerCase (trim " Summary ") /\
  CommandService.complete (CommandService.InFlight "summary" failedSummary)
    summaryInFlight
  = (failedSummary,
     {| CommandService.executionState := IDLE;
        CommandService.currentCommand := None;
        CommandService.commandHistory := ["summary"];
        CommandService.emitted :=
          [ CommandService.ExecutionStateNext PROCESSING;
            CommandService.CurrentCommandNext (Some "summary");
            CommandService.ExecutionStateNext IDLE;
            CommandService.CurrentCommandNext None;
            CommandService.CommandHistoryNext ["summary"] ] |}).
Proof.
  assert (H : CommandService.executeCommand SessionService.api (Emits sampleSkills)
                noAssets false " Summary " "session" CommandService.initial
                SessionService.initial
              = (CommandService.InFlight "summary" failedSummary,
                 summaryInFlight, SessionService.initial)) by reflexivity.
  destruct (finalize_runs_in_order _ _ _ _ _ _ _ _ _ _ _ _ H) as [[N _] F].
  split; [exact (N eq_refl)|].
  specialize (F failedSummary summaryInFlight).
  destruct (CommandService.complete
              (CommandService.InFlight "summary" failedSummary) summaryInFlight)
    as [notification w2].
  destruct F as (-> & E1 & E2 & E3 & E4).
  destruct w2 as [st cur hist em]. simpl in *. now subst.
Defined.

Lemma history_bounded_and_deduplicated_witness :
  ((List.length (serviceLog ["help"; "help"; "skills"] CommandService.initial) <= 50)%nat
   /\ noConsecutiveDuplicates
        (serviceLog ["help"; "help"; "skills"] CommandService.initial))
  /\ CommandService.addToHistory "help"
       (CommandService.commandHistoryNext ["skills"; "help"] CommandService.initial)
     = CommandService.commandHistoryNext ["skills"; "help"] CommandService.initial
  /\ CommandHistoryService.history
       (CommandHistoryService.addCommand " help " (cursorAt ["skills"; "help"] "sk" 1))
     = ["skills"; "help"].
Proof.
  destruct history_bounded_and_deduplicated as (H1 & _ & _ & H4 & H5 & _).
  split; [|split].
  - apply (H1 ["help"; "help"; "skills"] CommandService.initial).
    + simpl. lia.
    + exact I.
  - apply H4. reflexivity.
  - apply (H5 " help " (cursorAt ["skills"; "help"] "sk" 1)); reflexivity.
Defined.

Lemma history_cursor_navigation_witness :
  CommandHistoryService.repeatedly CommandHistoryService.getPreviousCommand 3
    (cursorAt ["help"; "skills"; "theme dark"] "sum" 3)
  = ([ CommandHistoryService.Entry "theme dark";
       CommandHistoryService.Entry "skills";
       CommandHistoryService.Entry "help" ],
     cursorAt ["help"; "skills"; "theme dark"] "sum" 0)
  /\ CommandHistoryService.repeatedly CommandHistoryService.getNextCommand 3
       (cursorAt ["help"; "skills"; "theme dark"] "sum" 0)
     = ([ CommandHistoryService.Entry "skills";
          CommandHistoryService.Entry "theme dark";
          CommandHistoryService.Entry "sum" ],
        cursorAt ["help"; "skills"; "theme dark"] "sum" 3)
  /\ CommandHistoryService.addCommand " theme dark "
       (cursorAt ["help"; "skills"] "sum" 0)
     = cursorAt ["help"; "skills"; "theme dark"] EmptyString 3.
Proof.
  destruct (history_cursor_navigation ["help"; "skills"; "theme dark"] "sum")
    as (H1 & _ & _ & _ & _ & _ & _ & H8 & H9).
  split; [|split].
  - apply (H1 3%nat). simpl. lia.
  - apply H8. simpl. lia.
  - refine (H9 " theme dark " (cursorAt ["help"; "skills"] "sum" 0) _ _);
      [reflexivity | discriminate].
Defined.

Lemma leading_space_validate_and_submit_disagree_witness :
  CommandService.isValidCommand " help" = false /\
  exists pipeline s1,
    CommandService.executeCommand SessionService.api (Emits sampleSkills)
    noAssets false
      " help" "session" CommandService.initial SessionService.initial
    = (CommandService.InFlight "help" pipeline, busy, s1).
Proof.
  destruct (leading_space_validate_and_submit_disagree SessionService.api
              (Emits sampleSkills) noAssets false "help" "session" CommandService.initial
              SessionService.initial) as (_ & H2 & H3).
  - simpl. tauto.
  - reflexivity.
  - split; [exact H2 | exact H3].
Defined.


(** Submitting [help] when idle: the help text, which no asset can make
    fail. *)
Example submit_help :
  CommandService.executeCommand SessionService.api (Emits sampleSkills)
    noAssets false
    " Help " "session" CommandService.initial SessionService.initial
  = (CommandService.InFlight "help" helpOutput, busy, SessionService.initial).
Proof. reflexivity. Qed.

Example help_text_navigation :
  exists rest,
    CommandService.generateHelpContent
    = "Joseph Lee's Interactive Portfolio Terminal" ++ CommandService.nl
      ++ CommandService.nl ++ "Available Commands:" ++ CommandService.nl
      ++ CommandService.nl ++ "Navigation:" ++ CommandService.nl
      ++ "  help                 Shows available commands and descriptions"
      ++ CommandService.nl
      ++ "  clear                Clear the terminal screen" ++ CommandService.nl
      ++ CommandService.nl ++ "Profile:" ++ rest.
Proof. eexists. vm_compute. reflexivity. Qed.

(** * Further properties *)

(** ** Trimming and case *)

Lemma trimStart_toLowerCase s : trimStart (toLowerCase s) = toLowerCase (trimStart s).
Proof.
  induction s as [|c r IH]; [reflexivity|].
  simpl. rewrite lowerChar_whiteSpace. now destruct (isWhiteSpace c).
Qed.

Lemma toLowerCase_empty s : toLowerCase s = EmptyString <-> s = EmptyString.
Proof. destruct s; simpl; split; congruence. Qed.

Lemma trimEnd_toLowerCase s : trimEnd (toLowerCase s) = toLowerCase (trimEnd s).
Proof.
  induction s as [|c r IH]; [reflexivity|].
  simpl. rewrite IH, lowerChar_whiteSpace.
  destruct (trimEnd r) as [|d t]; simpl; [now destruct (isWhiteSpace c) | reflexivity].
Qed.

Lemma trim_toLowerCase s : trim (toLowerCase s) = toLowerCase (trim s).
Proof. unfold trim. now rewrite trimStart_toLowerCase, trimEnd_toLowerCase. Qed.

Lemma trimStart_startsClean s : startsClean (trimStart s).
Proof.
  induction s as [|c r IH]; [exact I|].
  simpl. destruct (isWhiteSpace c) eqn:E; [exact IH | exact E].
Qed.

Lemma trimStart_clean s : startsClean s -> trimStart s = s.
Proof. destruct s as [|c r]; simpl; [reflexivity | now intros ->]. Qed.

Lemma trimEnd_startsClean s : startsClean s -> startsClean (trimEnd s).
Proof.
  destruct s as [|c r]; simpl; [trivial|]. intros H.
  destruct (trimEnd r); [rewrite H|]; simpl; exact H.
Qed.

Lemma trimEnd_idempotent s : trimEnd (trimEnd s) = trimEnd s.
Proof.
  induction s as [|c r IH]; [reflexivity|].
  simpl. destruct (trimEnd r) as [|d t] eqn:E.
  - destruct (isWhiteSpace c) eqn:W; [reflexivity|]. simpl. now rewrite W.
  - change (trimEnd (String c (String d t)))
      with (match trimEnd (String d t) with
            | EmptyString => if isWhiteSpace c then EmptyString else String c EmptyString
            | r' => String c r'
            end).
    now rewrite IH.
Qed.

Lemma trim_idempotent s : trim (trim s) = trim s.
Proof.
  unfold trim.
  rewrite (trimStart_clean (trimEnd (trimStart s)))
    by apply trimEnd_startsClean, trimStart_startsClean.
  apply trimEnd_idempotent.
Qed.

Lemma normalized_idempotent raw : normalized (normalized raw) = normalized raw.
Proof.
  unfold normalized.
  now rewrite trim_toLowerCase, trim_idempotent, toLowerCase_idempotent.
Qed.

(** ** Command service: rejection, normal form, failures *)

Section ServiceExtras.

Import CommandService.

Context {S : Type}.
Variable sessionService : SessionApi S.
Variable skillsJson : Observable SkillsData.
Variable assetBranch : string -> Observable OutputContent.
Variable documentThrows : bool.

Local Abbreviation submit := (executeCommand sessionService skillsJson assetBranch documentThrows).
Local Abbreviation offline := (executeOfflineCommand sessionService skillsJson assetBranch documentThrows).

(** X1. When no command is processing, an ASCII text whose normalized
    form is not valid is rejected with the INVALID_COMMAND error: its
    message quotes the text as typed, its suggestion is the default one
    for that code, and it lists the whole registry.  Nothing is emitted,
    the service and collaborator states stay as they were, and
    subscribing delivers the error without touching the history. *)
Theorem unrecognized_command_rejected raw sessionId w s :
  asciiText raw ->
  isProcessing w = false ->
  isValidCommand (normalized raw) = false ->
  submit raw sessionId w s
  = (Rejected (CommandError "INVALID_COMMAND"
                 ("Command '" ++ raw ++ "' not recognized")
                 "Type 'help' to see available commands" AVAILABLE_COMMANDS),
     w, s)
  /\ forall e, fst (fst (submit raw sessionId w s)) = Rejected e ->
       complete (Rejected e) w = (Throws e, w).
Proof.
  intros _ Hw Hv. unfold executeCommand, normalized in *. rewrite Hw, Hv. simpl.
  split; reflexivity.
Qed.

(** X2. An ASCII text that is accepted gives the same submission,
    service state and collaborator state as its normalized form (trimmed,
    lower case): submission does not depend on case or on surrounding
    white space. *)
Theorem submission_depends_on_normal_form raw sessionId w s c pipeline w1 s1 :
  asciiText raw ->
  submit raw sessionId w s = (InFlight c pipeline, w1, s1) ->
  c = normalized raw /\
  submit (normalized raw) sessionId w s = (InFlight c pipeline, w1, s1).
Proof.
  intros _ H.
  destruct (executeCommand_accepted _ _ _ _ _ _ _ _ _ _ _ _ H)
    as (Hw & Hc & Hv & Hw1 & Hp).
  fold (normalized raw) in Hc. split; [exact Hc|].
  unfold executeCommand. rewrite Hw.
  fold (normalized (normalized raw)). rewrite normalized_idempotent, <- Hc, Hv.
  simpl. rewrite <- Hp. now subst w1.
Qed.

(** X3. The offline pipeline of any command text either emits an output
    flagged successful, or fails with the EXECUTION_ERROR error, whose
    message is not empty, whose suggestion is the default one and which
    lists the whole registry; it carries the message of the failure it
    caught when that is not empty. *)
Theorem offline_pipeline_outcomes command s :
  (exists response,
      fst (generateResponseFromAssets sessionService skillsJson assetBranch documentThrows
             (firstToken command) (tl (split space command)) s) = Emits response /\
      fst (offline command s)
      = Emits {| success := true; output := response;
                 nextSuggestions := getNextSuggestions (firstToken command) |})
  \/ (exists error message,
        fst (generateResponseFromAssets sessionService skillsJson assetBranch documentThrows
               (firstToken command) (tl (split space command)) s) = Throws error /\
        message <> EmptyString /\
        (forall m, errorMessage error = Some m -> m <> EmptyString -> message = m) /\
        fst (offline command s)
        = Throws (CommandError "EXECUTION_ERROR" message
                    "Type 'help' for assistance" AVAILABLE_COMMANDS)).
Proof.
  unfold executeOfflineCommand.
  destruct (generateResponseFromAssets _ _ _ _ (firstToken command) _ s)
    as [[response|error] s1]; simpl.
  - left. now exists response.
  - right. exists error, (orElse (errorMessage error) "Command execution failed").
    split; [reflexivity|]. split; [|split; [|reflexivity]].
    + destruct (errorMessage error) as [[|a m]|]; simpl; discriminate.
    + intros m ->. destruct m; simpl; congruence.
Qed.

(** X4. The theme resolver never fails, whatever the collaborator does:
    it always emits a text content.  When [changeTheme] fails, the content
    is red and carries the failure's message, or Unknown error when there
    is none. *)
Theorem theme_resolver_never_fails args s :
  (exists response,
      fst (executeThemeCommand sessionService args s) = Emits response /\
      type response = text) /\
  (forall arg rest theme error s1,
      args = arg :: rest ->
      themeOfName (toLowerCase arg) = Some theme ->
      changeTheme sessionService theme s = (Throws error, s1) ->
      executeThemeCommand sessionService args s
      = (Emits {| content :=
                    PText ("‚ùå Failed to change theme: "
                           ++ orElse (errorMessage error) "Unknown error"
                           ++ nl ++ nl ++ "Available themes: dark, light");
                  type := text; formatting := plain "red"; actions := [] |},
         s1)).
Proof.
  split.
  - unfold executeThemeCommand. destruct args as [|arg rest].
    + eexists. split; reflexivity.
    + destruct (themeOfName (toLowerCase arg)) as [theme|].
      * destruct (changeTheme sessionService theme s) as [[t|e] s1];
          eexists; split; reflexivity.
      * eexists. split; reflexivity.
  - intros arg rest theme error s1 -> Ht Hc.
    unfold executeThemeCommand. now rewrite Ht, Hc.
Qed.

End ServiceExtras.

Section ServiceInvariant.

Import CommandService.

Context {S : Type}.
Variable sessionService : SessionApi S.
Variable skillsJson : Observable SkillsData.
Variable assetBranch : string -> Observable OutputContent.
Variable documentThrows : bool.

Lemma executeCommand_rejected raw sessionId w s e w1 s1 :
  executeCommand sessionService skillsJson assetBranch documentThrows raw sessionId w s
  = (Rejected e, w1, s1) ->
  w1 = w /\ s1 = s.
Proof.
  unfold executeCommand. destruct (isProcessing w); [intros E; now injection E|].
  destruct (negb _); [intros E; now injection E|].
  destruct (executeOfflineCommand _ _ _ _ _ s). discriminate.
Qed.

Lemma appendBounded_In cap command log x :
  (0 < cap)%nat ->
  In x (appendBounded cap command log) -> x = command \/ In x log.
Proof.
  intros Hcap.
  destruct (appendBounded_cases cap Hcap command log)
    as [[-> _] | [_ [[-> _] | [-> _]]]]; intros H.
  - now right.
  - apply in_app_or in H as [H|[<-|[]]]; [now right | now left].
  - apply in_app_or in H as [H|[<-|[]]]; [right | now left].
    destruct log; [destruct H | now right].
Qed.

(** X5. In every state the command service reaches, the execution state
    is IDLE with no current command when nothing is in flight, and
    PROCESSING with the valid, normalized command in flight as current
    command otherwise (never ERROR or SUCCESS); the history holds at most
    50 entries, no two equal neighbours, and only valid, normalized
    commands. *)
Theorem reachable_states_consistent w pending :
  Reachable sessionService skillsJson assetBranch documentThrows w pending ->
  consistent w pending.
Proof.
  induction 1 as [| w pending raw sid s e w1 s1 R IH E
                  | w pending raw sid s c pipeline w1 s1 R IH E
                  | w c R IH
                  | w pending R IH].
  - repeat split; simpl; try lia. constructor.
  - apply executeCommand_rejected in E as [-> _]. exact IH.
  - destruct (executeCommand_accepted _ _ _ _ _ _ _ _ _ _ _ _ E)
      as (_ & Hc & Hv & -> & _).
    destruct IH as (_ & L & N & F).
    repeat split; try assumption.
    fold (normalized raw) in Hc. subst c. apply normalized_idempotent.
  - destruct IH as ((_ & _ & Hv & Hn) & L & N & F).
    unfold consistent, finalize.
    destruct (addToHistory_flags c
                (currentCommandNext None (setExecutionState IDLE w))) as [E1 E2].
    rewrite addToHistory_appendBounded. cbn [commandHistory currentCommandNext
                                               setExecutionState].
    split; [split; [exact E1 | exact E2]|].
    split; [apply appendBounded_length; [lia | exact L]|].
    split; [apply appendBounded_noConsecutiveDuplicates; [lia | exact N]|].
    apply Forall_forall. intros x Hx.
    apply appendBounded_In in Hx; [|lia]. destruct Hx as [->|Hx].
    + now split.
    + rewrite Forall_forall in F. now apply F.
  - destruct IH as (P & L & N & F).
    split; [destruct pending; exact P|].
    repeat split; simpl; try lia. constructor.
Qed.

End ServiceInvariant.

(** ** Suggestions, continued *)

Section SuggestionExtras.

Import CommandService.

Lemma implemented_valid x :
  In x implemented -> isValidCommand x = true /\ x <> "clear".
Proof.
  simpl. intros H.
  repeat (destruct H as [H|H]; [rewrite <- H; split; [reflexivity | discriminate]|]).
  destruct H.
Qed.

(** X6. Whatever command was run, the suggestions offered next are four
    distinct names, each with a resolver branch of its own (so valid and
    never clear), and never the command just run. *)
Theorem next_suggestions_well_formed command :
  List.length (getNextSuggestions command) = 4%nat /\
  NoDup (getNextSuggestions command) /\
  ~ In command (getNextSuggestions command) /\
  forall x, In x (getNextSuggestions command) ->
            In x implemented /\ isValidCommand x = true.
Proof.
  assert (D : forall l : list string, forallb (fun x => includes implemented x) l = true ->
              forall x, In x l -> In x implemented /\ isValidCommand x = true).
  { intros l H x Hx. rewrite forallb_forall in H. apply H in Hx.
    apply includes_In in Hx. split; [exact Hx | now apply implemented_valid]. }
  unfold getNextSuggestions.
  repeat match goal with
         | |- context [String.eqb command ?x] =>
             destruct (String.eqb_spec command x) as [->|?];
             [ split; [reflexivity|]; split;
               [repeat constructor; simpl; intuition discriminate|]; split;
               [simpl; intuition discriminate | now apply D] |]
         end.
  split; [reflexivity|]. split; [repeat constructor; simpl; intuition discriminate|].
  split; [simpl; intuition congruence | now apply D].
Qed.

Lemma suggestions_registered partial c :
  In c (getCommandSuggestions partial) -> In c AVAILABLE_COMMANDS.
Proof.
  destruct partial as [[|a r]|]; unfold getCommandSuggestions; trivial.
  intros H. now apply filter_In in H.
Qed.

(** X7. Every suggestion is a registered name and a valid command; and
    the suggestions for a registered name typed in full are that name
    alone, no name being a prefix of another. *)
Theorem suggestions_are_valid_commands :
  (forall partial c,
      In c (getCommandSuggestions partial) ->
      In c AVAILABLE_COMMANDS /\ isValidCommand c = true) /\
  (forall c, In c AVAILABLE_COMMANDS -> getCommandSuggestions (Some c) = [c]).
Proof.
  split.
  - intros partial c H. apply suggestions_registered in H. split; [exact H|].
    apply isValidCommand_registered.
    destruct (registered_shape c (registered_In c H)) as (_ & Hs & _ & _).
    rewrite firstToken_self by exact Hs. now apply registered_In.
  - intros c H. simpl in H.
    repeat (destruct H as [H|H]; [now rewrite <- H|]). destruct H.
Qed.

(** X8. Typing on never brings a suggestion back: the suggestions for a
    partial followed by more text are among those for the partial. *)
Theorem suggestions_narrow partial more :
  incl (getCommandSuggestions (Some (partial ++ more)))
       (getCommandSuggestions (Some partial)).
Proof.
  intros c H. destruct partial as [|a r].
  - simpl. now apply suggestions_registered in H.
  - change (String a r ++ more) with (String a (r ++ more)) in H.
    unfold getCommandSuggestions in *. apply filter_In in H as [Hc Hp].
    apply filter_In. split; [exact Hc|].
    unfold startsWith in *. apply prefix_append in Hp as [rest Hp].
    apply prefix_append. exists (toLowerCase more ++ rest).
    rewrite Hp. change (String a (r ++ more)) with (String a r ++ more).
    now rewrite toLowerCase_append, append_assoc.
Qed.

Lemma allChars_append p a b : allChars p (a ++ b) = allChars p a && allChars p b.
Proof.
  induction a as [|c r IH]; [reflexivity|].
  simpl. now rewrite IH, andb_assoc.
Qed.

Lemma filter_none {A} (f : A -> bool) l :
  (forall x, In x l -> f x = false) -> filter f l = [].
Proof.
  induction l as [|x r IH]; intros H; [reflexivity|].
  simpl. rewrite (H x) by now left. apply IH. intros y Hy. apply H. now right.
Qed.

(** X9. A partial that holds a white-space character has no suggestion:
    once an argument is being typed, or after a leading blank, the list
    is empty. *)
Theorem suggestions_empty_after_white_space partial :
  allChars notWhiteSpace partial = false ->
  getCommandSuggestions (Some partial) = [].
Proof.
  intros H. destruct partial as [|a r]; [discriminate|].
  unfold getCommandSuggestions. apply filter_none. intros c Hc.
  destruct (startsWith (toLowerCase c) (toLowerCase (String a r))) eqn:E;
    [|reflexivity].
  exfalso. apply prefix_append in E as [rest E].
  destruct (registered_shape c (registered_In c Hc)) as (Hws & _).
  rewrite <- (allChars_toLowerCase notWhiteSpace) in Hws
    by (intro x; unfold notWhiteSpace; now rewrite lowerChar_whiteSpace).
  rewrite E, allChars_append in Hws. apply andb_prop in Hws as [Hws _].
  rewrite allChars_toLowerCase in Hws
    by (intro x; unfold notWhiteSpace; now rewrite lowerChar_whiteSpace).
  congruence.
Qed.

End SuggestionExtras.

(** ** The HTTP pipeline *)

Section OnlinePipeline.

Import CommandService.

(** X10. In the HTTP pipeline, when the request of an accepted command
    delivers a successful response, the subscriber receives it and the
    emissions are IDLE, null, then the history append.  When it fails in
    any way (failed request, time-out, response flagged unsuccessful), the
    subscriber receives a command error with a non-empty message and the
    whole registry, and the emissions are ERROR, then IDLE, null and the
    history append: the ERROR state is passed through and the service
    ends IDLE with the command in the history either way. *)
Theorem http_failure_passes_through_error raw sessionId w c w1 posted :
  CommandServiceOnline.executeCommand raw sessionId w
  = (CommandServiceOnline.Requested c, w1) ->
  let (notification, w2) :=
    CommandServiceOnline.complete (CommandServiceOnline.Requested c) posted w1 in
  executionState w2 = IDLE /\
  currentCommand w2 = None /\
  commandHistory w2 = appendBounded 50 c (commandHistory w) /\
  (requestFailed posted = false ->
   (exists response,
       posted = CommandServiceOnline.Replied response /\
       notification = Emits (CommandServiceOnline.reply response)) /\
   emitted w2
   = (emitted w1 ++ [ExecutionStateNext IDLE; CurrentCommandNext None]
      ++ historyEmission c (commandHistory w))%list) /\
  (requestFailed posted = true ->
   (exists code message suggestion,
       notification = Throws (CommandError code message suggestion AVAILABLE_COMMANDS) /\
       message <> EmptyString /\ suggestion <> EmptyString) /\
   emitted w2
   = (emitted w1
      ++ [ExecutionStateNext ERROR; ExecutionStateNext IDLE; CurrentCommandNext None]
      ++ historyEmission c (commandHistory w))%list) /\
  (posted = CommandServiceOnline.TimedOut ->
   notification
   = Throws (CommandError "TIMEOUT" "Command timed out. Please try again."
               "Check your internet connection and try again" AVAILABLE_COMMANDS)).
Proof.
  intros H.
  assert (Hh : commandHistory w1 = commandHistory w).
  { unfold CommandServiceOnline.executeCommand in H.
    destruct (isProcessing w); [discriminate|].
    destruct (negb _); [discriminate|]. now injection H as _ <-. }
  assert (F : forall wx,
             executionState (finalize c wx) = IDLE /\
             currentCommand (finalize c wx) = None /\
             commandHistory (finalize c wx) = appendBounded 50 c (commandHistory wx) /\
             emitted (finalize c wx)
             = (emitted wx ++ [ExecutionStateNext IDLE; CurrentCommandNext None]
                ++ historyEmission c (commandHistory wx))%list).
  { intros wx. unfold finalize, historyEmission.
    destruct (addToHistory_flags c
                (currentCommandNext None (setExecutionState IDLE wx))) as [E1 E2].
    rewrite E1, E2, addToHistory_appendBounded, addToHistory_emitted. simpl.
    repeat split. now rewrite <- !app_assoc. }
  unfold CommandServiceOnline.complete.
  destruct posted as [response|status|]; cbn [requestFailed].
  - unfold CommandServiceOnline.processCommandResponse.
    destruct (success (CommandServiceOnline.reply response)) eqn:Es; simpl negb; cbv iota.
    + destruct (F w1) as (F1 & F2 & F3 & F4). rewrite Hh in *.
      repeat split; try assumption; try discriminate.
      now exists response.
    + cbn [CommandServiceOnline.handleCommandError fst snd].
      destruct (F (setExecutionState ERROR w1)) as (F1 & F2 & F3 & F4).
      cbn [setExecutionState commandHistory emitted] in F3, F4. rewrite Hh in *.
      repeat split; try assumption; try discriminate.
      * unfold createCommandError. do 3 eexists.
        split; [reflexivity|]. split; [|discriminate].
        destruct (CommandServiceOnline.replyErrorMessage response) as [[|a m]|];
          simpl; discriminate.
      * now rewrite F4, <- !app_assoc.
  - cbn [CommandServiceOnline.handleCommandError fst snd].
    destruct (F (setExecutionState ERROR w1)) as (F1 & F2 & F3 & F4).
    cbn [setExecutionState commandHistory emitted] in F3, F4. rewrite Hh in *.
    repeat split; try assumption; try discriminate.
    + unfold createCommandError.
      destruct (status =? 400)%Z; [|destruct (status =? 404)%Z;
        [|destruct (status =? 429)%Z; [|destruct (status =? 500)%Z]]];
        do 3 eexists; (split; [reflexivity|]); split; discriminate.
    + now rewrite F4, <- !app_assoc.
  - cbn [CommandServiceOnline.handleCommandError fst snd].
    destruct (F (setExecutionState ERROR w1)) as (F1 & F2 & F3 & F4).
    cbn [setExecutionState commandHistory emitted] in F3, F4. rewrite Hh in *.
    repeat split; try assumption; try discriminate.
    + unfold createCommandError.
      do 3 eexists; (split; [reflexivity|]); split; discriminate.
    + now rewrite F4, <- !app_assoc.
Qed.

End OnlinePipeline.

(** ** History service, continued *)

Section TrackerExtras.

Import CommandHistoryService CommandHistoryQueries.

Lemma perform_invariant call st : trackerInvariant st -> trackerInvariant (perform call st).
Proof.
  intros (Hi & L & N & F). destruct call as [command| | |command| |]; simpl.
  - unfold trackerInvariant. rewrite addCommand_history.
    unfold addCommand. destruct (trim command =? EmptyString) eqn:E;
      [now repeat split|].
    assert (Hh : history
                   (if differs (lastElement (history st)) (trim command)
                    then {| history :=
                              if (maxHistorySize <? List.length (history st ++ [trim command]))%nat
                              then shift (history st ++ [trim command])
                              else (history st ++ [trim command])%list;
                            currentIndex := currentIndex st;
                            tempCommand := tempCommand st |}
                    else st)
                 = appendBounded 50 (trim command) (history st)).
    { pose proof (addCommand_history command st) as A. rewrite E in A.
      unfold addCommand in A. rewrite E in A. exact A. }
    cbn [resetNavigation currentIndex]. rewrite Hh.
    split; [lia|]. split; [apply appendBounded_length; [lia | exact L]|].
    split; [apply appendBounded_noConsecutiveDuplicates; [lia | exact N]|].
    apply Forall_forall. intros x Hx.
    apply appendBounded_In in Hx; [|lia]. destruct Hx as [->|Hx].
    + split; [apply trim_idempotent | now apply String.eqb_neq].
    + rewrite Forall_forall in F. now apply F.
  - unfold getPreviousCommand.
    destruct (List.length (history st) =? 0)%nat; [now repeat split|].
    destruct (Z.gtb_spec (currentIndex st) 0); [|now repeat split].
    repeat split; simpl; try assumption; lia.
  - unfold getNextCommand.
    destruct (Z.of_nat (List.length (history st)) =? 0)%Z; [now repeat split|].
    destruct (Z.ltb_spec (currentIndex st) (Z.of_nat (List.length (history st)) - 1)).
    + repeat split; simpl; try assumption; lia.
    + destruct (Z.eqb_spec (currentIndex st) (Z.of_nat (List.length (history st)) - 1));
        [|now repeat split].
      repeat split; simpl; try assumption; lia.
  - now repeat split.
  - repeat split; simpl; try assumption; lia.
  - repeat split; simpl; try lia. constructor.
Qed.

Lemma read_in_range log i :
  (0 <= i < Z.of_nat (List.length log))%Z -> read log i <> Undefined.
Proof.
  intros H. unfold read, at_. destruct (Z.ltb_spec i 0); [lia|].
  destruct (nth_error log (Z.to_nat i)) eqn:E; [discriminate|].
  apply nth_error_None in E. lia.
Qed.

(** X11. After any sequence of calls on a fresh history service (adding
    commands, navigating, saving input, resetting, clearing) the cursor is
    between -1 and the length, the log holds at most 50 entries, no two
    equal neighbours and only trimmed non-empty commands; and neither
    navigation call reads outside the log: none returns undefined. *)
Theorem tracker_invariant calls :
  trackerInvariant (performAll calls initial) /\
  fst (getPreviousCommand (performAll calls initial)) <> Undefined /\
  fst (getNextCommand (performAll calls initial)) <> Undefined.
Proof.
  assert (I : trackerInvariant (performAll calls initial)).
  { unfold performAll.
    assert (G : forall st, trackerInvariant st ->
                           trackerInvariant (fold_left (fun st call => perform call st) calls st)).
    { induction calls as [|call r IH]; intros st H; [exact H|].
      simpl. apply IH. now apply perform_invariant. }
    apply G. repeat split; simpl; try lia. constructor. }
  split; [exact I|]. destruct I as (Hi & _).
  set (st := performAll calls initial) in *. split.
  - unfold getPreviousCommand.
    destruct (List.length (history st) =? 0)%nat; [discriminate|].
    destruct (Z.gtb_spec (currentIndex st) 0); [|discriminate].
    simpl. apply read_in_range. lia.
  - unfold getNextCommand.
    destruct (Z.of_nat (List.length (history st)) =? 0)%Z; [discriminate|].
    destruct (Z.ltb_spec (currentIndex st) (Z.of_nat (List.length (history st)) - 1)).
    + simpl. apply read_in_range. lia.
    + destruct (currentIndex st =? _)%Z; discriminate.
Qed.

(** X12. Navigation steps undo each other.  From a cursor just after an
    entry, previous then next brings the cursor back; from a cursor on an
    entry, next then previous brings the cursor back and returns that
    entry.  Neither changes the log or the saved input. *)
Theorem navigation_round_trip log temp c e :
  nth_error log c = Some e ->
  snd (getNextCommand (snd (getPreviousCommand (cursorAt log temp (S c)))))
  = cursorAt log temp (S c)
  /\ getPreviousCommand (snd (getNextCommand (cursorAt log temp c)))
     = (Entry e, cursorAt log temp c).
Proof.
  intros H. pose proof (log_not_empty log c e H) as L.
  rewrite (previous_step log temp c e H). cbn [snd].
  destruct (nth_error log (S c)) as [e1|] eqn:E.
  - rewrite (next_step log temp c e1 E). cbn [snd].
    split; [reflexivity | now apply previous_step].
  - apply nth_error_None in E.
    rewrite (next_to_live log temp c) by lia. cbn [snd].
    split; [reflexivity | now apply previous_step].
Qed.

(** X13. [getRecentCommands] with a positive count returns the last
    entries of the log, as many as the count or all when there are fewer;
    with count 0 it returns the whole log, not the empty list; without
    argument it returns the last five. *)
Theorem recent_commands st count :
  ((0 < count)%Z ->
   exists older,
     history st = (older ++ getRecentCommands (Some count) st)%list /\
     List.length (getRecentCommands (Some count) st)
     = Nat.min (Z.to_nat count) (List.length (history st))) /\
  getRecentCommands (Some 0%Z) st = history st /\
  getRecentCommands None st = getRecentCommands (Some 5%Z) st.
Proof.
  split; [|split; [|reflexivity]].
  2:{ unfold getRecentCommands, sliceFrom. simpl.
      now replace (Z.min 0 (Z.of_nat (List.length (history st)))) with 0%Z by lia. }
  intros H. unfold getRecentCommands, sliceFrom.
  destruct (Z.ltb_spec (- count) 0); [|lia].
  set (k := Z.to_nat (Z.max (Z.of_nat (List.length (history st)) + - count) 0)).
  exists (firstn k (history st)). split; [now rewrite firstn_skipn|].
  rewrite length_skipn. unfold k. lia.
Qed.

Lemma stringIncludes_spec s sub :
  stringIncludes s sub = true <-> exists pre post, s = pre ++ sub ++ post.
Proof.
  induction s as [|c r IH].
  - cbn [stringIncludes]. rewrite orb_false_r, prefix_append. split.
    + intros [rest E]. now exists EmptyString, rest.
    + intros (pre & post & E). destruct pre; [|discriminate]. now exists post.
  - cbn [stringIncludes]. rewrite orb_true_iff, prefix_append, IH. split.
    + intros [[rest E] | (pre & post & E)].
      * now exists EmptyString, rest.
      * exists (String c pre), post. simpl. now rewrite E.
    + intros (pre & post & E). destruct pre as [|d pre].
      * left. now exists post.
      * right. simpl in E. injection E as _ E. now exists pre, post.
Qed.

(** X14. [searchHistory] with a blank term returns the whole log;
    otherwise, for a term and a log in ASCII text, it returns, in log
    order, the entries that hold the term somewhere when case is ignored.
    The term is matched as typed: its surrounding blanks are not trimmed
    away. *)
Theorem search_history_matches term st :
  (trim term = EmptyString -> searchHistory term st = history st) /\
  (asciiText term -> Forall asciiText (history st) ->
   trim term <> EmptyString ->
   Subsequence (searchHistory term st) (history st) /\
   forall entry,
     In entry (searchHistory term st) <->
     In entry (history st) /\
     exists pre post, toLowerCase entry = pre ++ toLowerCase term ++ post) /\
  searchHistory "help" (cursorAt ["help"; "skills"] EmptyString 2) = ["help"] /\
  searchHistory " help" (cursorAt ["help"; "skills"] EmptyString 2) = [].
Proof.
  split; [|split; [|split; reflexivity]].
  - intros H. unfold searchHistory. now rewrite H, String.eqb_refl.
  - intros _ _ H. unfold searchHistory. apply String.eqb_neq in H. rewrite H. split.
    + apply Subsequence_filter.
    + intros entry. now rewrite filter_In, stringIncludes_spec.
Qed.

End TrackerExtras.

(** ** Formatter, continued *)

Section FormatterExtras.

Import OutputFormatterService OutputFormatterUtilities.

Lemma occurs_append d a b : occurs d (a ++ b) <-> occurs d a \/ occurs d b.
Proof. induction a as [|c r IH]; simpl; [tauto | rewrite IH; tauto]. Qed.

Lemma replaceChar_keeps_absent c by_ d s :
  ~ occurs d s -> ~ occurs d by_ -> ~ occurs d (replaceChar c by_ s).
Proof.
  intros Hs Hb. induction s as [|x r IH]; [exact Hs|].
  simpl in *. destruct (Ascii.eqb x c).
  - rewrite occurs_append. tauto.
  - simpl. tauto.
Qed.

Lemma replaceChar_removes c by_ s : ~ occurs c by_ -> ~ occurs c (replaceChar c by_ s).
Proof.
  intros Hb. induction s as [|x r IH]; [simpl; tauto|].
  simpl. destruct (Ascii.eqb_spec x c) as [->|Hne].
  - rewrite occurs_append. tauto.
  - simpl. tauto.
Qed.

Lemma replaceChar_absent c by_ s : ~ occurs c s -> replaceChar c by_ s = s.
Proof.
  induction s as [|x r IH]; intros H; [reflexivity|].
  simpl in *. destruct (Ascii.eqb_spec x c) as [->|Hne]; [tauto|].
  rewrite IH; tauto.
Qed.

Ltac absent_in_literal := simpl; unfold lessThan, greaterThan, doubleQuote, singleQuote;
                          intuition discriminate.

Lemma sanitizeHtml_clean s d : In d htmlSpecial -> ~ occurs d (sanitizeHtml s).
Proof.
  unfold htmlSpecial, sanitizeHtml. intros [<-|[<-|[<-|[<-|[]]]]].
  - apply replaceChar_keeps_absent; [|absent_in_literal].
    apply replaceChar_keeps_absent; [|absent_in_literal].
    apply replaceChar_keeps_absent; [|absent_in_literal].
    apply replaceChar_removes. absent_in_literal.
  - apply replaceChar_keeps_absent; [|absent_in_literal].
    apply replaceChar_keeps_absent; [|absent_in_literal].
    apply replaceChar_removes. absent_in_literal.
  - apply replaceChar_keeps_absent; [|absent_in_literal].
    apply replaceChar_removes. absent_in_literal.
  - apply replaceChar_removes. absent_in_literal.
Qed.

Lemma sanitizeHtml_unchanged s :
  (forall d, In d htmlSpecial -> ~ occurs d s) -> sanitizeHtml s = s.
Proof.
  intros H. unfold sanitizeHtml.
  rewrite (replaceChar_absent lessThan) by (apply H; simpl; tauto).
  rewrite (replaceChar_absent greaterThan) by (apply H; simpl; tauto).
  rewrite (replaceChar_absent doubleQuote) by (apply H; simpl; tauto).
  apply replaceChar_absent, H. simpl. tauto.
Qed.

(** X15. The output of [sanitizeHtml] holds none of the characters it
    replaces (less-than, greater-than, double and single quote); a text
    without them is returned unchanged, so sanitizing twice is sanitizing
    once.  The ampersand is not escaped: the text of an entity and the
    character it stands for are sanitized to the same output. *)
Theorem sanitize_html_removes_specials :
  (forall s d, In d htmlSpecial -> ~ occurs d (sanitizeHtml s)) /\
  (forall s, (forall d, In d htmlSpecial -> ~ occurs d s) -> sanitizeHtml s = s) /\
  (forall s, sanitizeHtml (sanitizeHtml s) = sanitizeHtml s) /\
  sanitizeHtml "<b>" = "&lt;b&gt;" /\
  sanitizeHtml "&lt;b&gt;" = sanitizeHtml "<b>".
Proof.
  split; [exact sanitizeHtml_clean|]. split; [exact sanitizeHtml_unchanged|].
  split; [|split; reflexivity].
  intros s. apply sanitizeHtml_unchanged. intros d. apply sanitizeHtml_clean.
Qed.

Lemma substring_prefix k s :
  exists rest, s = substring 0 k s ++ rest /\
               String.length (substring 0 k s) = Nat.min k (String.length s).
Proof.
  revert s. induction k as [|k IH]; intros s.
  - exists s. now destruct s.
  - destruct s as [|c r]; [now exists EmptyString|].
    destruct (IH r) as (rest & E & L). exists rest. simpl.
    split; [now rewrite <- E | now rewrite L].
Qed.

(** X16. [truncateContent] returns a text no longer than the limit
    unchanged.  A longer ASCII text is cut to its first limit-minus-three
    characters followed by three dots, which makes exactly the limit, when
    the limit is at least 3; for a smaller limit the result is the three
    dots alone, longer than the limit.  The limit is 1000 when omitted. *)
Theorem truncate_content_bound content maxLength :
  ((Z.of_nat (String.length content) <= maxLength)%Z ->
   truncateContent content (Some maxLength) = content) /\
  (asciiText content ->
   (maxLength < Z.of_nat (String.length content))%Z -> (3 <= maxLength)%Z ->
   exists kept dropped,
     content = kept ++ dropped /\
     Z.of_nat (String.length kept) = (maxLength - 3)%Z /\
     truncateContent content (Some maxLength) = kept ++ "..." /\
     Z.of_nat (String.length (truncateContent content (Some maxLength))) = maxLength) /\
  (asciiText content ->
   (maxLength < Z.of_nat (String.length content))%Z -> (maxLength < 3)%Z ->
   truncateContent content (Some maxLength) = "...") /\
  truncateContent content None = truncateContent content (Some 1000%Z).
Proof.
  unfold truncateContent, substringTo.
  split; [|split; [|split; [|reflexivity]]].
  - intros H. destruct (Z.leb_spec (Z.of_nat (String.length content)) maxLength);
      [reflexivity | lia].
  - intros _ H H3. destruct (Z.leb_spec (Z.of_nat (String.length content)) maxLength);
      [lia|].
    destruct (substring_prefix (Z.to_nat (Z.max (maxLength - 3) 0)) content)
      as (rest & E & L).
    exists (substring 0 (Z.to_nat (Z.max (maxLength - 3) 0)) content), rest.
    split; [exact E|]. split; [rewrite L; lia|]. split; [reflexivity|].
    rewrite length_append, L. simpl. lia.
  - intros _ H H3. destruct (Z.leb_spec (Z.of_nat (String.length content)) maxLength);
      [lia|].
    replace (Z.to_nat (Z.max (maxLength - 3) 0)) with 0%nat by lia.
    now destruct content.
Qed.



End FormatterExtras.

Lemma text_unmarked_identity s :
  markerFree s -> OutputFormatterService.processTextContent s = s.
Proof.
  intros (Hbold & Hitalic & Hcode & Hnl).
  unfold OutputFormatterService.processTextContent.
  rewrite (replaceDelimited_unmarked "**") by exact Hbold.
  rewrite (replaceDelimited_unmarked "*") by exact Hitalic.
  rewrite (replaceDelimited_unmarked "`") by exact Hcode.
  now apply replaceNewlines_unmarked.
Qed.

Section Markup.

Import OutputFormatterService.

Lemma countChar_zero c s : countChar c s = 0%nat <-> ~ occurs c s.
Proof. rewrite <- countChar_occurs. lia. Qed.

Lemma plainText_no_terminator x :
  countChar newline x = 0%nat -> countChar carriageReturn x = 0%nat ->
  forall c, occurs c x -> isLineTerminator c = false.
Proof.
  rewrite !countChar_zero. intros Hn Hr c Hc. unfold isLineTerminator.
  destruct (Ascii.eqb_spec c newline) as [->|_]; [tauto|].
  destruct (Ascii.eqb_spec c carriageReturn) as [->|_]; [tauto | reflexivity].
Qed.

Lemma append_cancel a b c : a ++ b = a ++ c -> b = c.
Proof. induction a as [|x r IH]; simpl; [trivial | intros E; injection E; auto]. Qed.

Lemma prefix_other_head f d c r : c <> f -> prefix (String f d) (String c r) = false.
Proof. intros H. simpl. destruct (ascii_dec f c); [congruence | reflexivity]. Qed.

(** The scan copies text that does not hold the first character of the
    delimiter. *)
Lemma replaceScan_passes f d op cl pre t :
  countChar f pre = 0%nat ->
  replaceScan 0 (String f d) op cl (pre ++ t)
  = pre ++ replaceScan 0 (String f d) op cl t.
Proof.
  induction pre as [|c r IH]; intros H; [reflexivity|].
  simpl in H. destruct (Ascii.eqb_spec c f) as [->|Hne]; [discriminate|].
  change (String c r ++ t) with (String c (r ++ t)). cbn [replaceScan].
  unfold matchAt. rewrite prefix_other_head by exact Hne.
  simpl. now rewrite IH.
Qed.

Lemma lazyUntil_plain f d x rest :
  countChar f x = 0%nat ->
  (forall c, occurs c x -> isLineTerminator c = false) ->
  lazyUntil (String f d) (x ++ String f d ++ rest) = Some (x, rest).
Proof.
  induction x as [|c r IH]; intros H T; rewrite lazyUntil_unfold.
  - change (EmptyString ++ String f d ++ rest) with (String f d ++ rest).
    replace (prefix (String f d) (String f d ++ rest)) with true
      by (symmetry; apply prefix_append; now eexists).
    now rewrite drop_append.
  - simpl in H. destruct (Ascii.eqb_spec c f) as [->|Hne]; [discriminate|].
    change (String c r ++ String f d ++ rest) with (String c (r ++ String f d ++ rest)).
    rewrite prefix_other_head by exact Hne.
    rewrite (T c) by (simpl; now left).
    rewrite IH; [reflexivity | exact H |]. intros y Hy. apply T. simpl. now right.
Qed.

(** One marker with plain text inside, between plain texts, becomes the
    tag pair around the inner text. *)
Lemma replaceDelimited_one_marker f d op cl pre x post :
  countChar f pre = 0%nat -> countChar f x = 0%nat -> countChar f post = 0%nat ->
  (forall c, occurs c x -> isLineTerminator c = false) ->
  replaceDelimited (String f d) op cl (pre ++ String f d ++ x ++ String f d ++ post)
  = pre ++ op ++ x ++ cl ++ post.
Proof.
  intros Hpre Hx Hpost T. unfold replaceDelimited.
  rewrite replaceScan_passes by exact Hpre. f_equal.
  assert (M : matchAt (String f d) (String f d ++ x ++ String f d ++ post) = Some x).
  { unfold matchAt.
    replace (prefix (String f d) (String f d ++ x ++ String f d ++ post)) with true
      by (symmetry; apply prefix_append; now eexists).
    rewrite drop_append, lazyUntil_plain by assumption. reflexivity. }
  destruct (replaceDelimited_match f d op cl _ x M) as (rest & E & R).
  apply append_cancel, append_cancel, append_cancel in E. subst rest.
  unfold replaceDelimited in R. rewrite R. do 3 f_equal.
  apply (replaceDelimited_unmarked (String f d)).
  intros H. apply hasMarker_count in H. lia.
Qed.

Lemma hasMarker_count_double c d s :
  hasMarker (String c (String c d)) s -> (4 <= countChar c s)%nat.
Proof.
  intros (pre & inner & post & -> & _).
  rewrite !countChar_append. simpl. rewrite Ascii.eqb_refl. lia.
Qed.

Lemma plainText_append a b : plainText a -> plainText b -> plainText (a ++ b).
Proof.
  unfold plainText. rewrite !countChar_append. lia.
Qed.

Lemma plainText_unchanged s : plainText s -> processTextContent s = s.
Proof.
  intros (Hs & Hb & Hn & _).
  apply (text_unmarked_identity s).
  apply markerFree_by_count; lia.
Qed.

Ltac count_chars := rewrite ?countChar_append; simpl; lia.

(** X18. Around plain text (no star, backtick, newline or carriage
    return), inside and on both sides, the text inside being ASCII, a
    pair of double stars becomes a strong tag pair, a pair of stars an em
    tag pair and a pair of backticks a code tag pair, the rest of the
    text being kept as it is. *)
Theorem markup_on_plain_text pre x post :
  plainText pre -> plainText x -> asciiText x -> plainText post ->
  processTextContent (pre ++ "**" ++ x ++ "**" ++ post)
  = pre ++ "<strong>" ++ x ++ "</strong>" ++ post
  /\ processTextContent (pre ++ "*" ++ x ++ "*" ++ post)
     = pre ++ "<em>" ++ x ++ "</em>" ++ post
  /\ processTextContent (pre ++ "`" ++ x ++ "`" ++ post)
     = pre ++ "<code>" ++ x ++ "</code>" ++ post.
Proof.
  intros (Ps & Pb & Pn & Pr) (Xs & Xb & Xn & Xr) _ (Qs & Qb & Qn & Qr).
  pose proof (plainText_no_terminator x Xn Xr) as T.
  unfold processTextContent. split; [|split].
  - rewrite (replaceDelimited_one_marker "*" "*") by assumption.
    rewrite (replaceDelimited_unmarked "*")
      by (intros H; apply hasMarker_count in H; revert H; count_chars).
    rewrite (replaceDelimited_unmarked "`")
      by (intros H; apply hasMarker_count in H; revert H; count_chars).
    apply replaceNewlines_unmarked. apply countChar_zero. count_chars.
  - rewrite (replaceDelimited_unmarked "**")
      by (intros H; apply hasMarker_count_double in H; revert H; count_chars).
    rewrite (replaceDelimited_one_marker "*" EmptyString) by assumption.
    rewrite (replaceDelimited_unmarked "`")
      by (intros H; apply hasMarker_count in H; revert H; count_chars).
    apply replaceNewlines_unmarked. apply countChar_zero. count_chars.
  - rewrite (replaceDelimited_unmarked "**")
      by (intros H; apply hasMarker_count in H; revert H; count_chars).
    rewrite (replaceDelimited_unmarked "*")
      by (intros H; apply hasMarker_count in H; revert H; count_chars).
    rewrite (replaceDelimited_one_marker "`" EmptyString) by assumption.
    apply replaceNewlines_unmarked. apply countChar_zero. count_chars.
Qed.

End Markup.

(** ** The command input component *)

Section InputComponent.

Import CommandInputComponent CommandInputEvents.

Lemma at_in_range (a : list string) i :
  (0 <= i < Z.of_nat (List.length a))%Z -> exists e, at_ a i = Some e.
Proof.
  intros H. unfold at_. destruct (Z.ltb_spec i 0); [lia|].
  destruct (nth_error a (Z.to_nat i)) as [e|] eqn:E; [now exists e|].
  apply nth_error_None in E. lia.
Qed.

Lemma hideSuggestions_invariant st :
  (-1 <= historyIndex st <= Z.of_nat (List.length (commandHistory st)))%Z ->
  inputInvariant (hideSuggestions st).
Proof. intros H. repeat split; simpl; first [lia | discriminate]. Qed.

Lemma updateSuggestions_invariant st :
  (-1 <= historyIndex st <= Z.of_nat (List.length (commandHistory st)))%Z ->
  inputInvariant (snd (updateSuggestions st)).
Proof.
  intros H. unfold updateSuggestions.
  destruct (trim (currentCommand st) =? EmptyString);
    repeat split; simpl; first [lia | discriminate].
Qed.

Lemma navigateHistory_invariant direction st :
  inputInvariant st ->
  exists st1, navigateHistory direction st = Some st1 /\ inputInvariant st1.
Proof.
  intros (Hi & Hs & Hv). unfold navigateHistory.
  destruct (Z.eqb_spec (Z.of_nat (List.length (commandHistory st))) 0);
    [exists st; now repeat split|].
  destruct direction.
  - set (st1 := if (historyIndex st =? Z.of_nat (List.length (commandHistory st)))%Z
                then setTempCommand (currentCommand st) st else st).
    assert (E1 : historyIndex st1 = historyIndex st /\
                 commandHistory st1 = commandHistory st)
      by (unfold st1; destruct (historyIndex st =? _)%Z; now split).
    destruct E1 as [E1 E2]. rewrite E1, E2.
    destruct (Z.gtb_spec (historyIndex st) 0).
    + destruct (at_in_range (commandHistory st) (historyIndex st - 1)) as [e ->]; [lia|].
      eexists. split; [reflexivity|]. apply hideSuggestions_invariant.
      simpl. rewrite E2. lia.
    + eexists. split; [reflexivity|]. apply hideSuggestions_invariant.
      rewrite E1, E2. lia.
  - destruct (Z.ltb_spec (historyIndex st)
                (Z.of_nat (List.length (commandHistory st)) - 1)).
    + destruct (at_in_range (commandHistory st) (historyIndex st + 1)) as [e ->]; [lia|].
      eexists. split; [reflexivity|]. apply hideSuggestions_invariant. simpl. lia.
    + destruct (Z.eqb_spec (historyIndex st)
                  (Z.of_nat (List.length (commandHistory st)) - 1));
        eexists; (split; [reflexivity|]); apply hideSuggestions_invariant; simpl; lia.
Qed.

Lemma handle_invariant event st :
  inputInvariant st -> exists st1, handle event st = Some st1 /\ inputInvariant st1.
Proof.
  intros I. pose proof I as (Hi & Hs & Hv).
  destruct event as [history|value| | |key]; simpl.
  - eexists. split; [reflexivity|]. split; [simpl; lia|]. split; [exact Hs|exact Hv].
  - eexists. split; [reflexivity|]. unfold onInput.
    now apply updateSuggestions_invariant.
  - eexists. split; [reflexivity|]. now apply updateSuggestions_invariant.
  - eexists. split; [reflexivity|]. now apply hideSuggestions_invariant.
  - destruct key; simpl.
    + unfold handleEnterKey.
      destruct (showSuggestions st && (selectedSuggestionIndex st >=? 0)%Z) eqn:E.
      * apply andb_prop in E as [Es Eg].
        destruct (at_in_range (suggestions st) (selectedSuggestionIndex st))
          as [e ->]; [specialize (Hv Es); lia|].
        eexists. split; [reflexivity|]. simpl.
        unfold selectSuggestion. now apply hideSuggestions_invariant.
      * unfold submitCommand.
        destruct (trim (currentCommand st) =? EmptyString); simpl;
          eexists; (split; [reflexivity|]); [exact I|].
        repeat split; simpl; first [lia | discriminate].
    + destruct (navigateHistory_invariant up st I) as (st1 & -> & I1). now exists st1.
    + destruct (navigateHistory_invariant down st I) as (st1 & -> & I1). now exists st1.
    + eexists. split; [reflexivity|]. unfold handleTabCompletion.
      destruct (suggestions st) as [|a [|b r]] eqn:E; [exact I| |].
      * unfold selectSuggestion. now apply hideSuggestions_invariant.
      * assert (B : (0 <= Z.rem (selectedSuggestionIndex st + 1)
                              (Z.of_nat (List.length (a :: b :: r)))
                     < Z.of_nat (List.length (a :: b :: r)))%Z)
          by (apply Z.rem_bound_pos; simpl List.length; lia).
        repeat split; cbn [historyIndex commandHistory selectedSuggestionIndex
                             showSuggestions suggestions]; try lia.
    + eexists. split; [reflexivity|]. now apply hideSuggestions_invariant.
    + eexists. split; [reflexivity|]. now apply hideSuggestions_invariant.
    + eexists. split; [reflexivity|]. unfold handleEscape.
      destruct (showSuggestions st); [now apply hideSuggestions_invariant|].
      unfold clearInput. now apply hideSuggestions_invariant.
    + eexists. split; [reflexivity|]. now apply updateSuggestions_invariant.
Qed.

(** X19. Whatever sequence of history emissions, input changes, focus
    changes and key presses the input component handles from its initial
    state, no handler reads outside the history or the suggestion list:
    the input never receives undefined.  The history cursor stays between
    -1 and the length, and a shown selection is always an index of the
    suggestion list.  (Hovering a suggestion, which sets the selection to
    an index chosen by the template, is not among the events.) *)
Theorem input_component_reads_in_range events :
  exists st, handleAll events initial = Some st /\ inputInvariant st.
Proof.
  assert (G : forall st0, inputInvariant st0 ->
                          exists st, handleAll events st0 = Some st /\ inputInvariant st).
  { induction events as [|event r IH]; intros st0 I; [now exists st0|].
    simpl. destruct (handle_invariant event st0 I) as (st1 & -> & I1).
    now apply IH. }
  apply G. repeat split; simpl; first [lia | discriminate].
Qed.

Lemma at_position (a : list string) (i : nat) : at_ a (Z.of_nat i) = nth_error a i.
Proof.
  unfold at_. destruct (Z.ltb_spec (Z.of_nat i) 0); [lia|]. now rewrite Nat2Z.id.
Qed.

Lemma nth_error_nth_default (a : list string) (i : nat) :
  (i < List.length a)%nat -> nth_error a i = Some (nth i a EmptyString).
Proof.
  revert i. induction a as [|x a IH]; intros [|i] H; simpl in *; try lia; [easy|].
  apply IH. lia.
Qed.

Lemma up_from_live st m :
  List.length (commandHistory st) = S m ->
  historyIndex st = Z.of_nat (S m) ->
  navigateHistory up st =
  Some (browsing st (currentCommand st) (nth m (commandHistory st) EmptyString) m).
Proof.
  intros L H. unfold navigateHistory. rewrite L, H.
  destruct (Z.eqb_spec (Z.of_nat (S m)) 0); [lia|].
  rewrite Z.eqb_refl. cbn [historyIndex commandHistory setTempCommand].
  rewrite H. destruct (Z.gtb_spec (Z.of_nat (S m)) 0); [|lia].
  replace (Z.of_nat (S m) - 1)%Z with (Z.of_nat m) by lia.
  rewrite at_position, nth_error_nth_default by lia. reflexivity.
Qed.

Lemma up_inside st saved x i :
  (S (S i) <= List.length (commandHistory st))%nat ->
  navigateHistory up (browsing st saved x (S i)) =
  Some (browsing st saved (nth i (commandHistory st) EmptyString) i).
Proof.
  intros L. unfold navigateHistory. cbn [historyIndex commandHistory browsing].
  destruct (Z.eqb_spec (Z.of_nat (List.length (commandHistory st))) 0); [lia|].
  destruct (Z.eqb_spec (Z.of_nat (S i)) (Z.of_nat (List.length (commandHistory st))));
    [lia|].
  cbn [historyIndex commandHistory browsing].
  destruct (Z.gtb_spec (Z.of_nat (S i)) 0); [|lia].
  replace (Z.of_nat (S i) - 1)%Z with (Z.of_nat i) by lia.
  rewrite at_position, nth_error_nth_default by lia. reflexivity.
Qed.

Lemma down_inside st saved x i :
  (S (S i) <= List.length (commandHistory st))%nat ->
  navigateHistory down (browsing st saved x i) =
  Some (browsing st saved (nth (S i) (commandHistory st) EmptyString) (S i)).
Proof.
  intros L. unfold navigateHistory. cbn [historyIndex commandHistory browsing].
  destruct (Z.eqb_spec (Z.of_nat (List.length (commandHistory st))) 0); [lia|].
  destruct (Z.ltb_spec (Z.of_nat i) (Z.of_nat (List.length (commandHistory st)) - 1));
    [|lia].
  replace (Z.of_nat i + 1)%Z with (Z.of_nat (S i)) by lia.
  rewrite at_position, nth_error_nth_default by lia. reflexivity.
Qed.

Lemma down_to_live st saved x i :
  List.length (commandHistory st) = S i ->
  navigateHistory down (browsing st saved x i) =
  Some (browsing st saved saved (S i)).
Proof.
  intros L. unfold navigateHistory. cbn [historyIndex commandHistory browsing].
  rewrite L.
  destruct (Z.eqb_spec (Z.of_nat (S i)) 0); [lia|].
  destruct (Z.ltb_spec (Z.of_nat i) (Z.of_nat (S i) - 1)); [lia|].
  destruct (Z.eqb_spec (Z.of_nat i) (Z.of_nat (S i) - 1)); [|lia].
  reflexivity.
Qed.

Lemma up_repeated st saved j : forall i,
  (i + j < List.length (commandHistory st))%nat ->
  navigateTimes up j
    (browsing st saved (nth (i + j) (commandHistory st) EmptyString) (i + j)) =
  Some (browsing st saved (nth i (commandHistory st) EmptyString) i).
Proof.
  induction j as [|j IH]; intros i L.
  - now rewrite Nat.add_0_r.
  - cbn [navigateTimes]. replace (i + S j)%nat with (S (i + j)) by lia.
    rewrite up_inside by lia. apply IH. lia.
Qed.

Lemma down_repeated st saved j : forall i x,
  (i + S j = List.length (commandHistory st))%nat ->
  navigateTimes down (S j) (browsing st saved x i) =
  Some (browsing st saved saved (i + S j)).
Proof.
  induction j as [|j IH]; intros i x L.
  - cbn [navigateTimes]. rewrite down_to_live by lia.
    now replace (i + 1)%nat with (S i) by lia.
  - change (navigateTimes down (S (S j)) (browsing st saved x i))
      with (match navigateHistory down (browsing st saved x i) with
            | Some st1 => navigateTimes down (S j) st1
            | None => None
            end).
    rewrite down_inside by lia. rewrite IH by lia.
    now replace (S i + S j)%nat with (i + S (S j))%nat by lia.
Qed.

(** X20. With the history cursor of the input component at the live
    position, pressing ArrowUp k times (k at least 1 and at most the
    number of entries) shows the k-th newest entry, and pressing ArrowDown
    k times after that shows again what had been typed, with the cursor
    back at the live position. *)
Theorem input_arrows_round_trip st k :
  historyIndex st = Z.of_nat (List.length (commandHistory st)) ->
  (1 <= k <= List.length (commandHistory st))%nat ->
  let n := List.length (commandHistory st) in
  let shown :=
    browsing st (currentCommand st) (nth (n - k) (commandHistory st) EmptyString) (n - k) in
  navigateTimes up k st = Some shown /\
  navigateTimes down k shown =
  Some (browsing st (currentCommand st) (currentCommand st) n).
Proof.
  intros H K n shown. subst shown. fold n in H, K.
  destruct k as [|j]; [lia|]. split.
  - cbn [navigateTimes].
    destruct n as [|m] eqn:N; [lia|].
    rewrite (up_from_live st m) by assumption.
    replace m with ((S m - S j) + j)%nat at 1 2 by lia.
    apply up_repeated.
    fold (List.length (commandHistory st)). lia.
  - rewrite down_repeated
      by (fold (List.length (commandHistory st)); fold n; lia).
    now replace (n - S j + S j)%nat with n by lia.
Qed.

End InputComponent.

(** ** From the input component through the container to the service *)

Section Routing.

Import CommandInputComponent.

Context {S : Type}.
Variable sessionService : SessionApi S.
Variable skillsJson : Observable CommandService.SkillsData.
Variable assetBranch : string -> Observable OutputContent.
Variable documentThrows : bool.

Local Abbreviation submit :=
  (CommandService.executeCommand sessionService skillsJson assetBranch documentThrows).

Lemma firstToken_toLowerCase s :
  CommandService.firstToken (toLowerCase s) = toLowerCase (CommandService.firstToken s).
Proof.
  unfold CommandService.firstToken. rewrite split_toLowerCase.
  destruct (split space s); reflexivity.
Qed.

Lemma registered_name_clean c :
  In c AVAILABLE_COMMANDS ->
  trim c = c /\ c <> EmptyString /\ CommandService.firstToken c = c /\ toLowerCase c = c.
Proof.
  simpl. intros H.
  repeat (destruct H as [H|H];
          [rewrite <- H; repeat split; try reflexivity; discriminate|]).
  destruct H.
Qed.

Lemma registered_not_clear c :
  In c AVAILABLE_COMMANDS -> c <> "clear" -> In c implemented.
Proof.
  simpl. intros H N.
  repeat (destruct H as [H|H]; [subst c; try congruence; tauto|]).
  destruct H.
Qed.

Lemma container_forwarded raw sessionId t id :
  TerminalContainerComponent.executeCommand raw sessionId
  = TerminalContainerComponent.Forwarded t id ->
  t = trim raw /\ sessionId = Some id /\ id <> EmptyString /\
  trim raw <> EmptyString /\
  CommandService.firstToken (toLowerCase (trim raw)) <> "clear".
Proof.
  unfold TerminalContainerComponent.executeCommand,
    TerminalContainerComponent.handleBuiltInCommand.
  destruct (String.eqb_spec (trim raw) EmptyString) as [|Hn]; [discriminate|].
  destruct (String.eqb_spec (CommandService.firstToken (toLowerCase (trim raw))) "clear")
    as [|Hc]; [discriminate|].
  destruct sessionId as [[|a r]|]; try discriminate.
  intros H. injection H as <- <-. repeat split; try assumption. discriminate.
Qed.

(** X21. The container never hands the built-in clear command to the
    command service: when it forwards a command line in ASCII text and the
    service accepts it, the container has passed the trimmed line with a
    non-empty session id, the command in flight is the normalized line,
    and its first word is one of the ten names with a resolver branch of
    their own. *)
Theorem container_forwards_implemented raw sessionIdField t id w s c pipeline w1 s1 :
  TerminalContainerComponent.executeCommand raw sessionIdField
  = TerminalContainerComponent.Forwarded t id ->
  submit t id w s = (CommandService.InFlight c pipeline, w1, s1) ->
  asciiText raw ->
  t = trim raw /\ sessionIdField = Some id /\ id <> EmptyString /\
  c = normalized raw /\
  In (CommandService.firstToken c) implemented.
Proof.
  intros R A _.
  destruct (container_forwarded _ _ _ _ R) as (-> & -> & Hid & Hn & Hc).
  destruct (executeCommand_accepted _ _ _ _ _ _ _ _ _ _ _ _ A)
    as (_ & E & V & _).
  rewrite trim_idempotent in E. fold (normalized raw) in E.
  repeat split; try assumption.
  apply isValidCommand_registered in V. unfold registered in V.
  subst c. unfold normalized in *.
  rewrite firstToken_toLowerCase in *. rewrite toLowerCase_idempotent in V.
  apply registered_not_clear; assumption.
Qed.

(** X22. Completion from end to end.  When the typed value is ASCII
    text, not blank, and has exactly one suggestion, Tab puts that
    suggestion in the input and hides the list, Enter then emits it
    unchanged and empties the input with the history cursor at the live
    position; the value typed is a prefix of it when case is ignored, the
    service finds it valid, and the container clears the display for
    clear and forwards any other name as it is when there is a
    session. *)
Theorem tab_completion_chain value c st id :
  asciiText value ->
  trim value <> EmptyString ->
  CommandService.getCommandSuggestions (Some value) = [c] ->
  id <> EmptyString ->
  let typed := snd (onInput value st) in
  let completed := handleTabCompletion typed in
  currentCommand completed = c /\
  showSuggestions completed = false /\
  prefixIgnoringCase value c /\
  CommandService.isValidCommand c = true /\
  (exists cleared,
      handleEnterKey completed = Some (Some c, cleared) /\
      currentCommand cleared = EmptyString /\
      historyIndex cleared = Z.of_nat (List.length (commandHistory st))) /\
  TerminalContainerComponent.executeCommand c (Some id)
  = (if c =? "clear" then TerminalContainerComponent.TerminalCleared
     else TerminalContainerComponent.Forwarded c id).
Proof.
  intros _ Hv Hs Hid typed completed.
  assert (Hin : In c AVAILABLE_COMMANDS).
  { apply (suggestions_registered (Some value)). rewrite Hs. now left. }
  destruct (registered_name_clean c Hin) as (Ht & Hne & Hf & Hl).
  assert (Et : typed =
               {| currentCommand := value; showSuggestions := false;
                  suggestions := [c]; selectedSuggestionIndex := (-1)%Z;
                  commandHistory := commandHistory st;
                  historyIndex := historyIndex st;
                  tempCommand := tempCommand st |}).
  { unfold typed, onInput, updateSuggestions.
    cbn [currentCommand setCurrentCommand].
    destruct (String.eqb_spec (trim value) EmptyString); [contradiction|].
    rewrite Hs. reflexivity. }
  assert (Ec : completed =
               {| currentCommand := c; showSuggestions := false;
                  suggestions := [c]; selectedSuggestionIndex := (-1)%Z;
                  commandHistory := commandHistory st;
                  historyIndex := historyIndex st;
                  tempCommand := tempCommand st |}).
  { unfold completed. rewrite Et. reflexivity. }
  rewrite Ec. cbn [currentCommand showSuggestions].
  split; [reflexivity|]. split; [reflexivity|]. split.
  { destruct value as [|a r]; [contradiction Hv; reflexivity|].
    assert (Hc : In c (CommandService.getCommandSuggestions (Some (String a r))))
      by (rewrite Hs; now left).
    unfold CommandService.getCommandSuggestions in Hc.
    apply filter_In in Hc as [_ Hp].
    now apply startsWith_prefixIgnoringCase. }
  split.
  { apply isValidCommand_registered. rewrite Hf. now apply registered_In. }
  split.
  { eexists. split.
    - unfold handleEnterKey, submitCommand.
      cbn [currentCommand showSuggestions selectedSuggestionIndex andb].
      rewrite Ht. destruct (String.eqb_spec c EmptyString); [contradiction|].
      cbn [negb]. reflexivity.
    - split; reflexivity. }
  unfold TerminalContainerComponent.executeCommand,
    TerminalContainerComponent.handleBuiltInCommand.
  rewrite Ht, Hl, Hf.
  destruct (String.eqb_spec c EmptyString); [contradiction|].
  destruct (c =? "clear"); [reflexivity|].
  destruct id; [contradiction Hid|]; reflexivity.
Qed.

End Routing.

(** ** The further properties at concrete inputs *)

Lemma unrecognized_command_rejected_witness :
  CommandService.executeCommand SessionService.api (Emits sampleSkills)
    noAssets false
    "Bogus now" "session" CommandService.initial SessionService.initial
  = (CommandService.Rejected
       (CommandError "INVALID_COMMAND" "Command 'Bogus now' not recognized"
          "Type 'help' to see available commands" AVAILABLE_COMMANDS),
     CommandService.initial, SessionService.initial).
Proof.
  exact (proj1 (unrecognized_command_rejected SessionService.api (Emits sampleSkills)
                  noAssets false "Bogus now" "session" CommandService.initial
                  SessionService.initial eq_refl eq_refl eq_refl)).
Defined.

Lemma submission_depends_on_normal_form_witness :
  "help" = normalized " Help " /\
  CommandService.executeCommand SessionService.api (Emits sampleSkills)
    noAssets false
    (normalized " Help ") "session" CommandService.initial SessionService.initial
  = (CommandService.InFlight "help" helpOutput, busy, SessionService.initial).
Proof.
  apply (submission_depends_on_normal_form SessionService.api (Emits sampleSkills)
           noAssets false " Help " "session" CommandService.initial
           SessionService.initial);
    reflexivity.
Defined.

Lemma reachable_states_consistent_witness :
  Reachable SessionService.api (Emits sampleSkills) noAssets false busy (Some "help") /\
  consistent busy (Some "help").
Proof.
  assert (R : Reachable SessionService.api (Emits sampleSkills) noAssets false busy
                (Some "help")).
  { apply (Reachable_accepted SessionService.api (Emits sampleSkills)
    noAssets false
             CommandService.initial None " Help " "session" SessionService.initial
             "help" helpOutput busy SessionService.initial).
    - apply Reachable_initial.
    - reflexivity. }
  split; [exact R|].
  exact (reachable_states_consistent SessionService.api (Emits sampleSkills)
    noAssets false
           busy (Some "help") R).
Defined.

Lemma suggestions_empty_after_white_space_witness :
  CommandService.getCommandSuggestions (Some "skills f") = [].
Proof. apply (suggestions_empty_after_white_space "skills f"). reflexivity. Defined.

Lemma http_failure_passes_through_error_witness :
  CommandServiceOnline.executeCommand " Help " "session" CommandService.initial
  = (CommandServiceOnline.Requested "help", busy) /\
  fst (CommandServiceOnline.complete (CommandServiceOnline.Requested "help")
         CommandServiceOnline.TimedOut busy)
  = Throws (CommandError "TIMEOUT" "Command timed out. Please try again."
              "Check your internet connection and try again" AVAILABLE_COMMANDS).
Proof.
  split; [reflexivity|].
  generalize (http_failure_passes_through_error " Help " "session"
                CommandService.initial "help" busy CommandServiceOnline.TimedOut
                eq_refl).
  destruct (CommandServiceOnline.complete (CommandServiceOnline.Requested "help")
              CommandServiceOnline.TimedOut busy) as [notification w2].
  intros (_ & _ & _ & _ & _ & H). exact (H eq_refl).
Defined.

Lemma navigation_round_trip_witness :
  CommandHistoryService.getPreviousCommand
    (snd (CommandHistoryService.getNextCommand
            (cursorAt ["help"; "skills"] "sk" 1)))
  = (CommandHistoryService.Entry "skills", cursorAt ["help"; "skills"] "sk" 1).
Proof.
  exact (proj2 (navigation_round_trip ["help"; "skills"] "sk" 1 "skills" eq_refl)).
Defined.

Lemma markup_on_plain_text_witness :
  OutputFormatterService.processTextContent "say **hi** now"
  = "say <strong>hi</strong> now".
Proof.
  assert (P : forall s, countChar "*" s = 0%nat -> countChar "`" s = 0%nat ->
                        countChar newline s = 0%nat ->
                        countChar carriageReturn s = 0%nat -> plainText s)
    by (intros s H1 H2 H3 H4; repeat split; assumption).
  exact (proj1 (markup_on_plain_text "say " "hi" " now"
                  (P "say " eq_refl eq_refl eq_refl eq_refl)
                  (P "hi" eq_refl eq_refl eq_refl eq_refl)
                  eq_refl
                  (P " now" eq_refl eq_refl eq_refl eq_refl))).
Defined.

Lemma input_arrows_round_trip_witness :
  CommandInputComponent.navigateTimes CommandInputComponent.up 2
    (CommandInputComponent.onHistory ["help"; "skills"]
       (CommandInputComponent.setCurrentCommand "sk" CommandInputComponent.initial))
  = Some (browsing
            (CommandInputComponent.onHistory ["help"; "skills"]
               (CommandInputComponent.setCurrentCommand "sk"
                  CommandInputComponent.initial))
            "sk" "help" 0).
Proof.
  exact (proj1 (input_arrows_round_trip
                  (CommandInputComponent.onHistory ["help"; "skills"]
                     (CommandInputComponent.setCurrentCommand "sk"
                        CommandInputComponent.initial))
                  2 eq_refl (conj (le_S 1 1 (le_n 1)) (le_n 2)))).
Defined.

Lemma container_forwards_implemented_witness :
  TerminalContainerComponent.executeCommand " Help " (Some "session")
  = TerminalContainerComponent.Forwarded "Help" "session" /\
  "help" = normalized " Help " /\
  In (CommandService.firstToken "help") implemented.
Proof.
  split; [reflexivity|].
  apply (container_forwards_implemented SessionService.api (Emits sampleSkills)
           noAssets false " Help " (Some "session") "Help" "session"
           CommandService.initial SessionService.initial "help" helpOutput busy
           SessionService.initial); reflexivity.
Defined.

Lemma tab_completion_chain_witness :
  TerminalContainerComponent.executeCommand "help" (Some "session")
  = TerminalContainerComponent.Forwarded "help" "session".
Proof.
  apply (tab_completion_chain "he" "help" CommandInputComponent.initial "session");
    [reflexivity | discriminate | reflexivity | discriminate].
Defined.

Lemma search_history_matches_witness :
  Subsequence
    (CommandHistoryQueries.searchHistory "EL" (cursorAt ["Help"; "skills"] "sk" 2))
    ["Help"; "skills"] /\
  (In "Help"
      (CommandHistoryQueries.searchHistory "EL" (cursorAt ["Help"; "skills"] "sk" 2))
   <-> In "Help" ["Help"; "skills"] /\
       exists pre post, toLowerCase "Help" = pre ++ toLowerCase "EL" ++ post).
Proof.
  destruct (proj1 (proj2 (search_history_matches "EL"
                            (cursorAt ["Help"; "skills"] "sk" 2))))
    as [H1 H2].
  - reflexivity.
  - repeat constructor.
  - discriminate.
  - split; [exact H1 | exact (H2 "Help")].
Defined.

Lemma truncate_content_bound_witness :
  (exists kept dropped,
      "abcdefghij" = kept ++ dropped /\
      Z.of_nat (String.length kept) = (8 - 3)%Z /\
      OutputFormatterUtilities.truncateContent "abcdefghij" (Some 8%Z) = kept ++ "..." /\
      Z.of_nat
        (String.length (OutputFormatterUtilities.truncateContent "abcdefghij" (Some 8%Z)))
      = 8%Z) /\
  OutputFormatterUtilities.truncateContent "abcdefghij" (Some 2%Z) = "...".
Proof.
  split.
  - apply (proj1 (proj2 (truncate_content_bound "abcdefghij" 8%Z)));
      first [reflexivity | vm_compute; discriminate].
  - apply (proj1 (proj2 (proj2 (truncate_content_bound "abcdefghij" 2%Z))));
      reflexivity.
Defined.
